(** * PnB Excel processor: tabular normaliser and ownership resolution

    A shallow embedding of [PnB_Excel_Processor/excelprocessor3.py].
    Data frames are lists of rows, a missing value (pandas [NaN]) is
    [None], and every pandas operation used by the script is a list
    function defined once in [Frame] and reused by the stages.

    Strings are byte strings: [str.strip], [str.split] and [str.upper]
    are modelled on the ASCII range (the white space of Python's [str]
    below code point 128, and the letters a-z). *)

From Stdlib Require Import List String Ascii Bool Arith ZArith Lia.
From Stdlib Require Import Permutation Sorted OrderedTypeEx.
Import ListNotations.

Local Open Scope string_scope.
Local Open Scope list_scope.

(** ** Text primitives *)

Module Text.

(** [str.isspace] on one ASCII character: TAB, LF, VT, FF, CR, the four
    separators FS, GS, RS, US, and the space. *)
Definition isspace (a : ascii) : bool :=
  let n := nat_of_ascii a in
  (Nat.leb 9 n && Nat.leb n 13) || (Nat.leb 28 n && Nat.leb n 32).

Fixpoint lstrip (s : string) : string :=
  match s with
  | EmptyString => EmptyString
  | String a t => if isspace a then lstrip t else s
  end.

Fixpoint rstrip (s : string) : string :=
  match s with
  | EmptyString => EmptyString
  | String a t =>
      match rstrip t with
      | EmptyString => if isspace a then EmptyString else String a EmptyString
      | t' => String a t'
      end
  end.

(** [s.strip()] *)
Definition strip (s : string) : string := rstrip (lstrip s).

Definition upper_char (a : ascii) : ascii :=
  let n := nat_of_ascii a in
  if Nat.leb 97 n && Nat.leb n 122 then ascii_of_nat (n - 32) else a.

(** [s.upper()] *)
Fixpoint upper (s : string) : string :=
  match s with
  | EmptyString => EmptyString
  | String a t => String (upper_char a) (upper t)
  end.

(** [s.split()] with no separator: the maximal runs of characters that
    are not white space, in order.  [word] is the run being read. *)
Fixpoint split_from (word : string) (s : string) : list string :=
  match s with
  | EmptyString => match word with EmptyString => [] | _ => [word] end
  | String a t =>
      if isspace a then
        match word with
        | EmptyString => split_from EmptyString t
        | _ => word :: split_from EmptyString t
        end
      else split_from (word ++ String a EmptyString) t
  end.

Definition split (s : string) : list string := split_from EmptyString s.

(** [all_space s]: every character of [s] is white space. *)
Fixpoint all_space (s : string) : bool :=
  match s with
  | EmptyString => true
  | String a t => isspace a && all_space t
  end.

(** [no_space s]: no character of [s] is white space. *)
Fixpoint no_space (s : string) : bool :=
  match s with
  | EmptyString => true
  | String a t => negb (isspace a) && no_space t
  end.

End Text.

(** ** Cells *)

(** A cell of a data frame: [None] is pandas' missing value, [Some s] a
    value that is present, held by its text ([str(v)] for a cell that is
    not a string). *)
Definition cell := option string.

Definition cell_eq_dec (a b : cell) : {a = b} + {a <> b}.
Proof. decide equality; apply string_dec. Defined.

Definition eqb_of_dec {A : Type} (dec : forall x y : A, {x = y} + {x <> y})
  (x y : A) : bool := if dec x y then true else false.

(** Key equality of [merge] and [drop_duplicates]: two missing values
    are equal to each other. *)
Definition cell_eqb : cell -> cell -> bool := eqb_of_dec cell_eq_dec.

(** [pd.isna] *)
Definition isnull (c : cell) : bool :=
  match c with None => true | Some _ => false end.

(** [series.astype(str)]: a missing value becomes the text [nan]. *)
Definition astype_str (c : cell) : string :=
  match c with None => "nan" | Some s => s end.

(** [series.str.strip()] leaves a missing value missing. *)
Definition str_strip (c : cell) : cell := option_map Text.strip c.

(** ** Data-frame operations *)

Module Frame.

Section Ops.
Context {A B : Type}.

(** [pd.merge(left, right, how='inner')]: for every left row, in order,
    one output row per matching right row, in the right frame's order. *)
Definition merge_inner (matches : A -> B -> bool)
  (left : list A) (right : list B) : list (A * B) :=
  flat_map (fun a => map (pair a) (filter (matches a) right)) left.

(** The rows a left row contributes to a left merge. *)
Definition left_rows (matches : A -> B -> bool) (right : list B) (a : A)
  : list (A * option B) :=
  match filter (matches a) right with
  | [] => [(a, None)]
  | bs => map (fun b => (a, Some b)) bs
  end.

(** [pd.merge(left, right, how='left')]: as the inner merge, and a left
    row without a match is kept once with the right columns missing. *)
Definition merge_left (matches : A -> B -> bool)
  (left : list A) (right : list B) : list (A * option B) :=
  flat_map (left_rows matches right) left.

(** [df.drop_duplicates(subset=..., keep='first')]; [same] compares the
    columns of the subset (all columns when no subset is given). *)
Fixpoint drop_dups (same : A -> A -> bool) (seen : list A) (l : list A)
  : list A :=
  match l with
  | [] => []
  | x :: t =>
      if existsb (same x) seen then drop_dups same seen t
      else x :: drop_dups same (x :: seen) t
  end.

Definition drop_duplicates (same : A -> A -> bool) (l : list A) : list A :=
  drop_dups same [] l.

(** A stable sort, as pandas uses for [sort_values] on several columns:
    every row is put before the first row that it does not exceed. *)
Fixpoint insert_row (le : A -> A -> bool) (x : A) (l : list A) : list A :=
  match l with
  | [] => [x]
  | y :: t => if le x y then x :: l else y :: insert_row le x t
  end.

Definition sort_values (le : A -> A -> bool) (l : list A) : list A :=
  fold_right (insert_row le) [] l.

End Ops.

End Frame.

(** ** Tabular normaliser: [clean_excel] *)

Module Normalizer.

(** A sheet read with [header=None]: its rows, top to bottom. *)
Definition sheet := list (list cell).

(** [cleaned_df]: the column labels and the data rows. *)
Record frame := mkFrame { columns : list cell; data : list (list cell) }.

Inductive outcome :=
| Cleaned (f : frame)        (* Excel cleaned successfully. *)
| NoDataFound                (* No data found in the largest sheet. *)
| NoHeaderRow                (* Could not find a row with more than 3 filled cells. *)
| Raised.                    (* any exception, caught on line 67 *)

(** Line 21: [max] keeps the first item of greatest length. *)
Fixpoint max_rows (best : string * sheet) (items : list (string * sheet))
  : string * sheet :=
  match items with
  | [] => best
  | x :: t =>
      if Nat.ltb (List.length (snd best)) (List.length (snd x)) then max_rows x t
      else max_rows best t
  end.

(** [target_df.empty]: no row, or no column. *)
Definition empty (s : sheet) : bool :=
  match s with
  | [] => true
  | r :: _ => match r with [] => true | _ => false end
  end.

(** Line 33: [pd.notna(v) and str(v).strip() != ""]. *)
Definition non_empty (v : cell) : bool :=
  match v with
  | None => false
  | Some s => negb (String.eqb (Text.strip s) EmptyString)
  end.

Fixpoint non_empty_from (idx : nat) (row_values : list cell) : list nat :=
  match row_values with
  | [] => []
  | v :: t =>
      if non_empty v then idx :: non_empty_from (S idx) t
      else non_empty_from (S idx) t
  end.

Definition non_empty_indices (row_values : list cell) : list nat :=
  non_empty_from 0 row_values.

(** Lines 31-37: [(header_row_idx, first_non_empty_col)]. *)
Fixpoint find_header (i : nat) (rows : sheet) : option (nat * nat) :=
  match rows with
  | [] => None
  | row_values :: t =>
      let ne := non_empty_indices row_values in
      if Nat.ltb 3 (List.length ne) then Some (i, hd 0 ne)
      else find_header (S i) t
  end.

(** Lines 43-47. *)
Definition rebase (target_df : sheet) (hdr : nat * nat) : sheet :=
  let below := skipn (fst hdr) target_df in
  if Nat.ltb 0 (snd hdr) then map (skipn (snd hdr)) below else below.

(** Line 55: [dropna(how='all')]. *)
Definition dropna_all (rows : list (list cell)) : list (list cell) :=
  filter (fun r => negb (forallb isnull r)) rows.

(** [cleaned_df.isnull().all()] at column [k]. *)
Definition all_null (rows : list (list cell)) (k : nat) : bool :=
  forallb (fun r => isnull (nth k r None)) rows.

Fixpoint take_columns (mask : list bool) (r : list cell) : list cell :=
  match mask, r with
  | m :: mt, c :: rt => if m then c :: take_columns mt rt else take_columns mt rt
  | _, _ => []
  end.

(** Line 56: [cleaned_df.loc[:, ~cleaned_df.isnull().all()]]. *)
Definition drop_null_columns (f : frame) : frame :=
  let mask := map (fun k => negb (all_null (data f) k))
                  (seq 0 (List.length (columns f))) in
  mkFrame (take_columns mask (columns f)) (map (take_columns mask) (data f)).

(** Lines 49-56 on the re-based rows. *)
Definition to_frame (rows : sheet) : frame :=
  drop_null_columns (mkFrame (hd [] rows) (dropna_all (tl rows))).

(** Lines 21-22: the sheet of greatest row count. *)
Definition target_sheet (all_sheets : list (string * sheet)) : option sheet :=
  match all_sheets with
  | [] => None
  | x :: t => Some (snd (max_rows x t))
  end.

(** The frame written to the sheet [Data] of the cleaned file, or the
    error reported. *)
Definition clean_excel (all_sheets : list (string * sheet)) : outcome :=
  match target_sheet all_sheets with
  | None => Raised
  | Some target_df =>
      if empty target_df then NoDataFound
      else
        match find_header 0 target_df with
        | None => NoHeaderRow
        | Some hdr => Cleaned (to_frame (rebase target_df hdr))
        end
  end.

(** A blank cell: missing, or a text that trims to the empty string. *)
Definition blank (v : cell) : bool :=
  match v with
  | None => true
  | Some s => String.eqb (Text.strip s) EmptyString
  end.

(** The number of cells of a row that are not blank. *)
Definition filled (row_values : list cell) : nat :=
  List.length (filter (fun v => negb (blank v)) row_values).

(** Every row of a sheet read by [read_excel] has the same number of
    cells. *)
Definition rectangular (s : sheet) : bool :=
  match s with
  | [] => true
  | r :: t => forallb (fun r' => Nat.eqb (List.length r') (List.length r)) t
  end.

(** The place in the frame before line 56 of the column that is at
    place [k] after it. *)
Fixpoint kept_index (mask : list bool) (k : nat) : nat :=
  match mask with
  | [] => 0
  | true :: mt => match k with 0 => 0 | S k' => S (kept_index mt k') end
  | false :: mt => S (kept_index mt k)
  end.

(** A header row with a repeated name, and one data row. *)
Definition repeated_names : sheet :=
  [[Some "a"; Some "a"; Some "b"; Some "c"];
   [Some "1"; Some "2"; Some "3"; Some "4"]].

(** A data row whose only cell that is present holds a space. *)
Definition space_row : sheet :=
  [[Some "a"; Some "b"; Some "c"; Some "d"];
   [Some " "; None; None; None];
   [Some "1"; Some "2"; None; None]].

End Normalizer.

(** ** Ownership resolution: [process_cleaned_excel] *)

Module Resolver.

(** The placeholder owner. *)
Definition sentinel : string := "Unspecified Unspecified".

Definition is_sentinel (c : cell) : bool := cell_eqb c (Some sentinel).

(** A row of the cleaned sheet, under its canonical column names (after
    the renaming of lines 85-86); [Other] holds the remaining columns. *)
Record row := mkRow {
  Loaning_Department_ID : option Z;
  Code : cell;
  PAG : cell;
  Member_Supervisor : cell;
  Member_Name_ID : cell;
  Other : list cell }.

Definition row_eq_dec (a b : row) : {a = b} + {a <> b}.
Proof.
  decide equality;
    try apply (list_eq_dec cell_eq_dec); try apply cell_eq_dec.
  decide equality; apply Z.eq_dec.
Defined.

Definition with_owner (r : row) (m : cell) : row :=
  mkRow (Loaning_Department_ID r) (Code r) (PAG r) m (Member_Name_ID r) (Other r).

Definition with_PAG (r : row) (p : cell) : row :=
  mkRow (Loaning_Department_ID r) (Code r) p (Member_Supervisor r)
        (Member_Name_ID r) (Other r).

(** Line 81: [df[df['Loaning Department ID'] == 25902]]. *)
Definition in_department (r : row) : bool :=
  match Loaning_Department_ID r with
  | Some d => Z.eqb d 25902
  | None => false
  end.

(** [series.astype(str).str.strip().str.upper()] (lines 87 and 125). *)
Definition canonical_PAG (c : cell) : cell :=
  Some (Text.upper (Text.strip (astype_str c))).

(** Lines 81-87. *)
Definition filtered_dept (df : list row) : list row :=
  map (fun r => with_PAG r (canonical_PAG (PAG r))) (filter in_department df).

(** The number of rows of the group [(c, p)] whose owner is [m]. *)
Definition votes (dept : list row) (c p m : string) : nat :=
  List.length
    (filter (fun r => cell_eqb (Code r) (Some c) && cell_eqb (PAG r) (Some p)
                      && cell_eqb (Member_Supervisor r) (Some m))
            dept).

(** *** Step 3: majority vote (lines 90-120) *)

(** A row of [selected_df]. *)
Record sel := mkSel { sel_MS : cell; sel_Code : cell; sel_PAG : cell }.

Definition select3 (r : row) : sel :=
  mkSel (Member_Supervisor r) (Code r) (PAG r).

(** Ascending order of a column, missing values last. *)
Definition cell_le (a b : cell) : bool :=
  match a, b with
  | Some x, Some y => String.leb x y
  | Some _, None => true
  | None, Some _ => false
  | None, None => true
  end.

(** Line 90.  Rows of equal [Code] are kept in their order; what follows
    depends on the rows of [selected_df] and not on their order. *)
Definition selected_df (dept : list row) : list sel :=
  Frame.sort_values (fun a b => cell_le (sel_Code a) (sel_Code b))
                    (map select3 dept).

(** A row of the count table: the three group keys and the group size. *)
Record count_row := mkCount {
  g_Code : string; g_PAG : string; g_MS : string; Count : nat }.

Definition key_compare (c p m : string) (g : count_row) : comparison :=
  match String.compare c (g_Code g) with
  | Eq => match String.compare p (g_PAG g) with
          | Eq => String.compare m (g_MS g)
          | o => o
          end
  | o => o
  end.

(** Count one more row of the group [(c, p, m)] in a table kept in
    ascending order of the group keys. *)
Fixpoint bump (c p m : string) (t : list count_row) : list count_row :=
  match t with
  | [] => [mkCount c p m 1]
  | g :: t' =>
      match key_compare c p m g with
      | Lt => mkCount c p m 1 :: t
      | Eq => mkCount (g_Code g) (g_PAG g) (g_MS g) (S (Count g)) :: t'
      | Gt => g :: bump c p m t'
      end
  end.

(** [groupby(['Code','PAG','Member Supervisor']).size().reset_index(name='Count')]:
    one row per observed group, groups in ascending key order; a row
    with a missing key belongs to no group. *)
Definition groupby_size (l : list sel) : list count_row :=
  fold_right
    (fun s acc =>
       match sel_Code s, sel_PAG s, sel_MS s with
       | Some c, Some p, Some m => bump c p m acc
       | _, _, _ => acc
       end) [] l.

(** The order of the group keys of two rows of the count table. *)
Definition key_lt (a b : count_row) : Prop :=
  key_compare (g_Code a) (g_PAG a) (g_MS a) b = Lt.

Definition has_key (c p m : string) (g : count_row) : bool :=
  match key_compare c p m g with Eq => true | _ => false end.

(** The rows counted under a key. *)
Definition tally (t : list count_row) (c p m : string) : nat :=
  list_sum (map Count (filter (has_key c p m) t)).

(** Lines 93-95. *)
Definition grouped_df_gcc (dept : list row) : list count_row :=
  groupby_size (selected_df dept).

(** [by=['Code','PAG','Count'], ascending=[True, True, False]] *)
Definition count_le (a b : count_row) : bool :=
  match String.compare (g_Code a) (g_Code b) with
  | Lt => true
  | Gt => false
  | Eq => match String.compare (g_PAG a) (g_PAG b) with
          | Lt => true
          | Gt => false
          | Eq => Nat.leb (Count b) (Count a)
          end
  end.

(** [subset=['PAG', 'Code']] *)
Definition same_group (a b : count_row) : bool :=
  String.eqb (g_PAG a) (g_PAG b) && String.eqb (g_Code a) (g_Code b).

Definition group_key (g : count_row) : string * string := (g_PAG g, g_Code g).

(** Lines 98-102: [g_MS] is the column [Member Supervisor_New]. *)
Definition grouped_counts_sorted (dept : list row) : list count_row :=
  Frame.drop_duplicates same_group
    (Frame.sort_values count_le (grouped_df_gcc dept)).

(** Line 104. *)
Definition unspecified_df (dept : list row) : list sel :=
  filter (fun s => is_sentinel (sel_MS s)) (selected_df dept).

(** A row of [joined_df]. *)
Record joined := mkJoined {
  j_Code : cell; j_PAG : cell;
  Member_Supervisor_New : cell; j_Count : nat;
  j_MS : cell }.

Definition joined_eq_dec (a b : joined) : {a = b} + {a <> b}.
Proof. decide equality; try apply cell_eq_dec; apply Nat.eq_dec. Defined.

Definition on_PAG_Code (g : count_row) (u : sel) : bool :=
  cell_eqb (Some (g_PAG g)) (sel_PAG u) && cell_eqb (Some (g_Code g)) (sel_Code u).

(** Line 105. *)
Definition joined_df (dept : list row) : list joined :=
  Frame.drop_duplicates (eqb_of_dec joined_eq_dec)
    (map (fun gu => mkJoined (Some (g_Code (fst gu))) (Some (g_PAG (fst gu)))
                             (Some (g_MS (fst gu))) (Count (fst gu))
                             (sel_MS (snd gu)))
         (Frame.merge_inner on_PAG_Code (grouped_counts_sorted dept)
                            (unspecified_df dept))).

Definition on_PAG_Code_MS (r : row) (j : joined) : bool :=
  cell_eqb (PAG r) (j_PAG j) && cell_eqb (Code r) (j_Code j)
  && cell_eqb (Member_Supervisor r) (j_MS j).

(** Lines 107-112. *)
Definition df_unspecified_joined (dept : list row) : list (row * option joined) :=
  Frame.merge_left on_PAG_Code_MS dept (joined_df dept).

(** The value of a right-hand column in a merged row. *)
Definition right_col {B : Type} (f : B -> cell) (o : option B) : cell :=
  match o with Some b => f b | None => None end.

(** Lines 114-120: [np.where] on the owner column, then the two helper
    columns are dropped. *)
Definition majority_vote (dept : list row) : list row :=
  map (fun rj =>
         with_owner (fst rj)
           (if is_sentinel (Member_Supervisor (fst rj))
            then right_col Member_Supervisor_New (snd rj)
            else Member_Supervisor (fst rj)))
      (df_unspecified_joined dept).

(** The owner of the row [r] after Step 3: the column
    [Member Supervisor_New] of the first row of [joined_df] with the keys
    of [r], for a row that holds the sentinel. *)
Definition voted_owner (dept : list row) (r : row) : cell :=
  if is_sentinel (Member_Supervisor r)
  then right_col Member_Supervisor_New
                 (find (on_PAG_Code_MS r) (joined_df dept))
  else Member_Supervisor r.

(** *** Step 4: master lookup (lines 123-148) *)

(** A row of the master file. *)
Record leader := mkLeader { l_PAG : cell; l_MS : cell; DIRECTOR : cell }.

(** Lines 124-125. *)
Definition df_leaders (master : list leader) : list leader :=
  map (fun l => mkLeader (canonical_PAG (str_strip (l_PAG l)))
                         (str_strip (l_MS l)) (str_strip (DIRECTOR l)))
      master.

(** Line 127. *)
Definition b_test1 (b_test : list row) : list row :=
  filter (fun r => is_sentinel (Member_Supervisor r)) b_test.

(** Line 129. *)
Definition df_accural_manager_code (leaders : list leader) : list leader :=
  Frame.drop_duplicates (fun a b => cell_eqb (l_PAG a) (l_PAG b)) leaders.

(** Line 131. *)
Definition df_leaders_UN (b_test : list row) (leaders : list leader)
  : list (row * leader) :=
  Frame.merge_inner (fun r l => cell_eqb (PAG r) (l_PAG l))
                    (b_test1 b_test) (df_accural_manager_code leaders).

(** A row of [df_leaders_select]. *)
Record lookup := mkLookup {
  k_PAG : cell; k_Code : cell; Member_Supervisor_y : cell }.

(** Line 133. *)
Definition df_leaders_select (b_test : list row) (leaders : list leader)
  : list lookup :=
  map (fun rl => mkLookup (PAG (fst rl)) (Code (fst rl)) (l_MS (snd rl)))
      (df_leaders_UN b_test leaders).

Definition on_PAG_Code' (r : row) (k : lookup) : bool :=
  cell_eqb (PAG r) (k_PAG k) && cell_eqb (Code r) (k_Code k).

(** Lines 142-148 on the rows one row of [b_test] yields in the merge. *)
Definition fallback_owner (rk : row * option lookup) : row :=
  with_owner (fst rk)
    (if is_sentinel (Member_Supervisor (fst rk))
     then right_col Member_Supervisor_y (snd rk)
     else Member_Supervisor (fst rk)).

(** Lines 135-148. *)
Definition master_lookup (b_test : list row) (leaders : list leader)
  : list row :=
  map fallback_owner
      (Frame.merge_left on_PAG_Code' b_test (df_leaders_select b_test leaders)).

(** The rows of the merge of line 135 that come from the row [r] of
    [b_test], after lines 142-148. *)
Definition master_rows (b_test : list row) (leaders : list leader) (r : row)
  : list row :=
  map fallback_owner
      (Frame.left_rows on_PAG_Code' (df_leaders_select b_test leaders) r).

(** [df_leaders_final], the third value [process_cleaned_excel] returns,
    from the sheet [Data] of the cleaned file and the sheet of the master
    file.  The roster of lines 150-170, the other value returned, is
    derived from this table and takes no part in the resolution. *)
Definition process_cleaned_excel (df : list row) (master : list leader)
  : list row :=
  master_lookup (majority_vote (filtered_dept df)) (df_leaders master).

(** A row of department 25902 with no name and no other column. *)
Definition plain_row (c p m : string) : row :=
  mkRow (Some 25902%Z) (Some c) (Some p) (Some m) None [].

(** Three rows of Alice, three rows of Bob and one sentinel row, all of
    the code [C1] and of one [PAG]. *)
Definition tie_fixture (p : string) : list row :=
  [plain_row "C1" p "Alice"; plain_row "C1" p "Alice"; plain_row "C1" p "Alice";
   plain_row "C1" p "Bob"; plain_row "C1" p "Bob"; plain_row "C1" p "Bob";
   plain_row "C1" p sentinel].

(** Two sentinel rows and one row of Alice in one group. *)
Definition outvoted_fixture : list row :=
  [plain_row "C1" "P" sentinel; plain_row "C1" "P" sentinel;
   plain_row "C1" "P" "Alice"].

(** One row of Victor, one of Wendy and one sentinel row in one group:
    three owners of one count. *)
Definition three_way_fixture : list row :=
  [plain_row "C1" "P" "Victor"; plain_row "C1" "P" "Wendy";
   plain_row "C1" "P" sentinel].

(** [a] is the most frequent owner of the group [(c, p)] when the rows of
    the sentinel are left out, the first in string order among the owners
    of the highest count. *)
Definition peer_winner (dept : list row) (c p a : string) : Prop :=
  a <> sentinel /\ (0 < votes dept c p a)%nat
  /\ forall m, m <> sentinel ->
       (votes dept c p m <= votes dept c p a)%nat
       /\ (votes dept c p m = votes dept c p a -> String.leb a m = true).

(** The owner [a] has more rows in the group [(c, p)] than the sentinel,
    or as many and a name that sorts before the sentinel's. *)
Definition beats_sentinel (dept : list row) (c p a : string) : Prop :=
  (votes dept c p sentinel < votes dept c p a)%nat
  \/ (votes dept c p sentinel = votes dept c p a
      /\ String.compare a sentinel = Lt).

End Resolver.

(** ** Director derivation: [process_master_data_update] *)

Module Director.
Import Resolver.

(** The three columns line 199 reads from the edited table. *)
Record roster_row := mkRoster { e_PAG : cell; e_MS : cell; e_DIRECTOR : cell }.

Definition roster_eq_dec (a b : roster_row) : {a = b} + {a <> b}.
Proof. decide equality; apply cell_eq_dec. Defined.

(** A row of [df_director_map]: a resolved row and its [DIRECTOR]. *)
Record mapped := mkMapped { m_row : row; m_DIRECTOR : cell }.

Definition mapped_eq_dec (a b : mapped) : {a = b} + {a <> b}.
Proof. decide equality; [apply cell_eq_dec | apply row_eq_dec]. Defined.

(** The same three columns of a [df_director_map]. *)
Definition roster_of_mapped (m : mapped) : roster_row :=
  mkRoster (PAG (m_row m)) (Member_Supervisor (m_row m)) (m_DIRECTOR m).

Definition on_PAG_MS (r : row) (e : roster_row) : bool :=
  cell_eqb (PAG r) (e_PAG e) && cell_eqb (Member_Supervisor r) (e_MS e).

Section Update.

(** What a cell written by [to_excel] is when [read_excel] reads it
    back (lines 194-198); the workbook itself is outside the model. *)
Variable reread : cell -> cell.

(** Whether lines 193-219 raise on the two tables: the workbook cannot
    be written or read, the table read back lacks one of the three
    columns, or [pd.merge] refuses key columns of two kinds (text in one
    table and numbers in the other).  None of this can be told from the
    cells as the model holds them, so it is a parameter. *)
Variable raises : list roster_row -> list row -> bool.

(** Lines 198-199. *)
Definition df_manager_director (df_edited : list roster_row) : list roster_row :=
  Frame.drop_duplicates (eqb_of_dec roster_eq_dec)
    (map (fun e => mkRoster (reread (e_PAG e)) (reread (e_MS e))
                            (reread (e_DIRECTOR e)))
         df_edited).

(** Lines 202-207. *)
Definition df_director_map (df_edited : list roster_row)
  (df_leaders_final : list row) : list mapped :=
  Frame.drop_duplicates (eqb_of_dec mapped_eq_dec)
    (map (fun re => mkMapped (fst re) (right_col e_DIRECTOR (snd re)))
         (Frame.merge_left on_PAG_MS df_leaders_final
                           (df_manager_director df_edited))).

(** Line 210. *)
Definition df_director_master (dmap : list mapped) : list roster_row :=
  Frame.drop_duplicates (eqb_of_dec roster_eq_dec) (map roster_of_mapped dmap).

(** The tables behind the three values returned: the sheet of
    [Master_Data_Leaders.xlsx] and [df_director_map]; [None] is the
    triple of [None]s, returned for an empty edited table (line 190) and
    by the [except] clause (line 222). *)
Definition process_master_data_update (df_edited : list roster_row)
  (df_leaders_final : list row) : option (list roster_row * list mapped) :=
  match df_edited with
  | [] => None
  | _ =>
      if raises df_edited df_leaders_final then None
      else
        let dmap := df_director_map df_edited df_leaders_final in
        Some (df_director_master dmap, dmap)
  end.

End Update.

(** Tables on which nothing is raised. *)
Definition never (_ : list roster_row) (_ : list row) : bool := false.



(** A round trip that reads an empty text back as a missing value and
    everything else as written. *)
Definition empty_as_missing (c : cell) : cell :=
  match c with
  | Some EmptyString => None
  | _ => c
  end.

End Director.

(** ** Downstream propagation: [process_accrual_mapping] *)

Module Propagator.
Import Resolver Director.

(** A row of the cleaned accrual sheet. *)
Record trx := mkTrx {
  Trx_Fin_Dept : option Z;
  Trx_OU : option Z;
  Exclusion : cell;
  Account_425 : option Z;
  Accruals_type : cell;
  Empl_ID : cell;
  Project : cell;
  trx_Other : list cell }.

Definition num_is (v : option Z) (n : Z) : bool :=
  match v with Some z => Z.eqb z n | None => false end.

(** Lines 244-250. *)
Definition accrual_filter (t : trx) : bool :=
  num_is (Trx_Fin_Dept t) 25902 && num_is (Trx_OU t) 1062
  && cell_eqb (Exclusion t) (Some "N")
  && num_is (Account_425 t) 425000
  && cell_eqb (Accruals_type t) (Some "Sharing").

(** Line 253: the filtered rows with their new column [MEMBER ID]. *)
Definition filtered_df_accrual (df_accrual : list trx) : list (trx * cell) :=
  map (fun t => (t, Some (astype_str (Empl_ID t))))
      (filter accrual_filter df_accrual).

(** The columns [MEMBER ID], [Project], [Member Supervisor], [DIRECTOR]. *)
Record code_row := mkCode {
  c_MEMBER_ID : cell; c_Project : cell; c_MS : cell; c_DIRECTOR : cell }.

Definition code_eq_dec (a b : code_row) : {a = b} + {a <> b}.
Proof. decide equality; apply cell_eq_dec. Defined.

Definition pair_eq_dec (a b : cell * cell) : {a = b} + {a <> b}.
Proof. decide equality; apply cell_eq_dec. Defined.

(** Line 256. *)
Definition filtered_df_select (df_accrual : list trx) : list (cell * cell) :=
  Frame.drop_duplicates (eqb_of_dec pair_eq_dec)
    (map (fun tm => (snd tm, Project (fst tm))) (filtered_df_accrual df_accrual)).

(** [series.str[-1]] on a list of tokens. *)
Definition last_item (l : list string) : cell :=
  match l with [] => None | x :: t => Some (last t x) end.

(** Line 260: [series.str.split().str[-1]] on a column of strings. *)
Definition member_id (name_and_id : cell) : cell :=
  match name_and_id with
  | None => None
  | Some s => last_item (Text.split s)
  end.

(** Lines 259-261: the director map with its [MEMBER ID] and with [Code]
    under the name [Project]. *)
Definition df_leaders_CODE (dmap : list mapped) : list code_row :=
  map (fun m => mkCode (member_id (Member_Name_ID (m_row m)))
                       (Code (m_row m))
                       (Member_Supervisor (m_row m))
                       (m_DIRECTOR m))
      dmap.

(** Line 262. *)
Definition df_leaders_CODE_select (dmap : list mapped) : list code_row :=
  Frame.drop_duplicates (eqb_of_dec code_eq_dec) (df_leaders_CODE dmap).

Definition pair_key (c : code_row) : cell * cell := (c_MEMBER_ID c, c_Project c).

(** [subset=['MEMBER ID', 'Project']] *)
Definition same_pair (a b : code_row) : bool :=
  cell_eqb (c_MEMBER_ID a) (c_MEMBER_ID b) && cell_eqb (c_Project a) (c_Project b).

(** The keys of an accrual row against a row of
    [df_accural_manager_code2] (line 275): the key cells of such a row are
    those of an accrual row, so both sides hold values of one column. *)
Definition on_own_pair (k : cell * cell) (c : code_row) : bool :=
  cell_eqb (fst k) (c_MEMBER_ID c) && cell_eqb (snd k) (c_Project c).

(** A row of [Accrual_Mapped.xlsx]. *)
Record accrual_row := mkAccrual {
  a_trx : trx; MEMBER_ID : cell; a_MS : cell; a_DIRECTOR : cell }.

Section Mapping.

(** How [pd.merge] compares a [Project] of the accrual sheet with a
    [Code] of the roster (line 265).  The two columns come from two
    workbooks and may hold numbers of two widths, which [pd.merge]
    compares by value: the integer 100 of one meets the float 100.0 of
    the other, though their texts differ.  Text is compared by its
    characters.  The model holds a cell by its text, so the comparison is
    a parameter. *)
Variable same_Project : cell -> cell -> bool.

(** [on=['MEMBER ID', 'Project']] between the accrual sheet and the
    roster; both [MEMBER ID] columns hold text. *)
Definition on_pair (k : cell * cell) (c : code_row) : bool :=
  cell_eqb (fst k) (c_MEMBER_ID c) && same_Project (snd k) (c_Project c).

(** Lines 265-270; the key cells of a merged row are the left ones. *)
Definition df_accural_manager_code (df_accrual : list trx)
  (dmap : list mapped) : list code_row :=
  map (fun kc => mkCode (fst (fst kc)) (snd (fst kc))
                        (right_col c_MS (snd kc)) (right_col c_DIRECTOR (snd kc)))
      (Frame.merge_left on_pair (filtered_df_select df_accrual)
                        (df_leaders_CODE_select dmap)).

(** Line 272. *)
Definition df_accural_manager_code2 (df_accrual : list trx)
  (dmap : list mapped) : list code_row :=
  Frame.drop_duplicates same_pair (df_accural_manager_code df_accrual dmap).

(** Lines 275-279. *)
Definition df_accural_final (df_accrual : list trx) (dmap : list mapped)
  : list accrual_row :=
  map (fun tc => mkAccrual (fst (fst tc)) (snd (fst tc))
                           (right_col c_MS (snd tc)) (right_col c_DIRECTOR (snd tc)))
      (Frame.merge_left (fun tm c => on_own_pair (snd tm, Project (fst tm)) c)
                        (filtered_df_accrual df_accrual)
                        (df_accural_manager_code2 df_accrual dmap)).

(** Line 241 and the column look-ups of lines 244-256: the sheet [Data]
    of the cleaned accrual file as [read_excel] types it; [None] when the
    read raises or one of the columns is not there. *)
Variable read_Data : Normalizer.frame -> option (list trx).

(** Whether lines 253-283 raise on the two tables: [Member Name & ID]
    is not a column of text, [pd.merge] refuses key columns of two kinds,
    or the workbook cannot be written. *)
Variable raises : list trx -> list mapped -> bool.

(** The sheet written to [Accrual_Mapped.xlsx], from the sheets of the
    accrual file and the director map held by the interface; [None] is
    the [None] of lines 229 and 232 and of the [except] clause (line
    288).  [clean_excel] returns [None] as its third value on every path,
    so line 238 is never reached: when the cleaning fails there is no
    cleaned file, [read_excel] raises on line 241 and the [except] clause
    returns [None]. *)
Definition process_accrual_mapping
  (accrual_file : option (list (string * Normalizer.sheet)))
  (df_director_map : option (list mapped)) : option (list accrual_row) :=
  match accrual_file, df_director_map with
  | None, _ => None
  | _, None => None
  | _, Some [] => None
  | Some all_sheets, Some dmap =>
      match Normalizer.clean_excel all_sheets with
      | Normalizer.Cleaned cleaned_df =>
          match read_Data cleaned_df with
          | Some df_accrual =>
              if raises df_accrual dmap then None
              else Some (df_accural_final df_accrual dmap)
          | None => None
          end
      | _ => None
      end
  end.

End Mapping.

(** *** The propagation in the words of the specification *)

(** [t] is the last white-space-delimited token of [s]: a non-empty run
    without white space, followed by white space only, and preceded by
    nothing or by a white-space character. *)
Definition last_token (s t : string) : Prop :=
  t <> EmptyString /\ Text.no_space t = true
  /\ exists pre suf,
      s = (pre ++ t ++ suf)%string /\ Text.all_space suf = true
      /\ (pre = EmptyString
          \/ exists pre' a, pre = (pre' ++ String a EmptyString)%string
                            /\ Text.isspace a = true).

(** The roster deduplicated on [(member_id, Project)], first row kept. *)
Definition roster_first (dmap : list mapped) : list code_row :=
  Frame.drop_duplicates same_pair (df_leaders_CODE dmap).

(** The filtered transaction rows joined to that roster; a row without
    a match keeps the owner and the director missing. *)
Definition propagate_spec (same_Project : cell -> cell -> bool)
  (df_accrual : list trx) (dmap : list mapped) : list accrual_row :=
  map (fun tm =>
         match find (on_pair same_Project (snd tm, Project (fst tm)))
                    (roster_first dmap) with
         | Some c => mkAccrual (fst tm) (snd tm) (c_MS c) (c_DIRECTOR c)
         | None => mkAccrual (fst tm) (snd tm) None None
         end)
      (filtered_df_accrual df_accrual).

(** Two accrual rows that pass the filter, and a director map with two
    rows of the member 123 on the project C1. *)
Definition accrual_fixture : list trx :=
  [mkTrx (Some 25902%Z) (Some 1062%Z) (Some "N") (Some 425000%Z)
         (Some "Sharing") (Some "123") (Some "C1") [];
   mkTrx (Some 25902%Z) (Some 1062%Z) (Some "N") (Some 425000%Z)
         (Some "Sharing") (Some "77") (Some "C9") []].

Definition director_map_fixture : list mapped :=
  [mkMapped (mkRow (Some 25902%Z) (Some "C1") (Some "P") (Some "Alice")
                   (Some "John Smith 123") []) (Some "D1");
   mkMapped (mkRow (Some 25902%Z) (Some "C1") (Some "Q") (Some "Bob")
                   (Some "J. Smith  123 ") []) (Some "D2")].

(** The roster deduplicated on [(member_id, PAG)], first row kept: the
    pair the join would use if its second key were the category. *)
Definition roster_first_by_PAG (dmap : list mapped) : list mapped :=
  Frame.drop_duplicates
    (fun a b => cell_eqb (member_id (Member_Name_ID (m_row a)))
                         (member_id (Member_Name_ID (m_row b)))
                && cell_eqb (PAG (m_row a)) (PAG (m_row b)))
    dmap.

(** A roster with two rows of the member 123 and the category P, on the
    codes C1 and C2, and an accrual row of that member on the project
    C2. *)
Definition two_codes_roster : list mapped :=
  [mkMapped (mkRow (Some 25902%Z) (Some "C1") (Some "P") (Some "Alice")
                   (Some "John Smith 123") []) (Some "D1");
   mkMapped (mkRow (Some 25902%Z) (Some "C2") (Some "P") (Some "Bob")
                   (Some "John Smith 123") []) (Some "D2")].

Definition second_code_accrual : list trx :=
  [mkTrx (Some 25902%Z) (Some 1062%Z) (Some "N") (Some 425000%Z)
         (Some "Sharing") (Some "123") (Some "C2") []].

(** An accrual row on the project 100, an integer, and a roster row of
    its member whose code is the float 100.0. *)
Definition integer_project : list trx :=
  [mkTrx (Some 25902%Z) (Some 1062%Z) (Some "N") (Some 425000%Z)
         (Some "Sharing") (Some "55") (Some "100") []].

Definition float_code_roster : list mapped :=
  [mkMapped (mkRow (Some 25902%Z) (Some "100.0") (Some "R") (Some "Carol")
                   (Some "Ann Lee 55") []) (Some "D3")].

(** One comparison by value, for columns of whole numbers: the text of a
    float that ends in [.0] stands for the integer before the point. *)
Fixpoint drop_point_zero (s : string) : string :=
  match s with
  | EmptyString => EmptyString
  | String a t =>
      if (Ascii.eqb a "."%char && String.eqb t "0")%bool then EmptyString
      else String a (drop_point_zero t)
  end.

Definition by_value (a b : cell) : bool :=
  cell_eqb (option_map drop_point_zero a) (option_map drop_point_zero b).

End Propagator.

(** ** The monthly roster: lines 150-170 of [process_cleaned_excel] *)

Module Roster.
Import Resolver.

(** A row of [df_leaders_monthly]: the columns [Member Supervisor],
    [PAG] and [DIRECTOR]. *)
Record monthly := mkMonthly { r_MS : cell; r_PAG : cell; r_DIRECTOR : cell }.

Definition monthly_eq_dec (a b : monthly) : {a = b} + {a <> b}.
Proof. decide equality; apply cell_eq_dec. Defined.

Definition owner_PAG_eq_dec (a b : cell * cell) : {a = b} + {a <> b}.
Proof. decide equality; apply cell_eq_dec. Defined.

(** Lines 151-155: the distinct pairs (owner, PAG) of [df_leaders_final],
    then both columns trimmed and [PAG] put in its canonical form. *)
Definition df_leaders_LNB (df_leaders_final : list row) : list (cell * cell) :=
  map (fun mp => (str_strip (fst mp), canonical_PAG (str_strip (snd mp))))
      (Frame.drop_duplicates (eqb_of_dec owner_PAG_eq_dec)
         (map (fun r => (Member_Supervisor r, PAG r)) df_leaders_final)).

Definition on_PAG_owner (mp : cell * cell) (l : leader) : bool :=
  cell_eqb (snd mp) (l_PAG l) && cell_eqb (fst mp) (l_MS l).

(** Lines 157-163. *)
Definition merged (df_leaders_final : list row) (leaders : list leader)
  : list monthly :=
  Frame.drop_duplicates (eqb_of_dec monthly_eq_dec)
    (map (fun ml => mkMonthly (fst (fst ml)) (snd (fst ml))
                              (right_col DIRECTOR (snd ml)))
         (Frame.merge_left on_PAG_owner (df_leaders_LNB df_leaders_final)
                           leaders)).

(** Line 166: the column [__SortNull__]. *)
Definition SortNull (m : monthly) : bool :=
  isnull (r_DIRECTOR m) || cell_eqb (r_DIRECTOR m) (Some EmptyString).

Section Sorted.

(** [df.sort_values(by=key, ascending=False)] on a column of booleans,
    with the default sort kind, which fixes no order among rows of equal
    key. *)
Variable sort_desc : (monthly -> bool) -> list monthly -> list monthly.

(** Lines 166-170. *)
Definition df_leaders_monthly (df_leaders_final : list row)
  (leaders : list leader) : list monthly :=
  sort_desc SortNull (merged df_leaders_final leaders).

(** The first value [process_cleaned_excel] returns. *)
Definition roster (df : list row) (master : list leader) : list monthly :=
  df_leaders_monthly (process_cleaned_excel df master) (df_leaders master).

End Sorted.

(** A roster row as a row of [df_edited]: the interface hands the table
    it shows, edited or not, to [process_master_data_update]. *)
Definition as_edited (m : monthly) : Director.roster_row :=
  Director.mkRoster (r_PAG m) (r_MS m) (r_DIRECTOR m).

(** One such sort: the rows of key [True] in their order, then the
    others in theirs. *)
Definition true_first (key : monthly -> bool) (l : list monthly) : list monthly :=
  filter key l ++ filter (fun m => negb (key m)) l.

End Roster.

(** ** The director choices: [get_director_choices] and
    [create_director_info_display] *)

Module Choices.
Import Roster.

(** [df['DIRECTOR'].dropna().unique()]: the directors that are present,
    each once, in the order of their first row. *)
Definition dropna_unique (df : list monthly) : list string :=
  Frame.drop_duplicates String.eqb
    (flat_map (fun m => match r_DIRECTOR m with Some d => [d] | None => [] end)
              df).

(** Lines 290-298; [sorted] puts strings in ascending order. *)
Definition get_director_choices (df : list monthly) : list string :=
  match df with
  | [] => []
  | _ =>
      Frame.sort_values String.leb
        (filter (fun d => negb (String.eqb (Text.strip d) EmptyString))
                (dropna_unique df))
  end.

Definition newline : string := String (ascii_of_nat 10) EmptyString.

(** Lines 300-316. *)
Definition create_director_info_display (df : list monthly) : string :=
  match df with
  | [] => "No data available"
  | _ =>
      match get_director_choices df with
      | [] => "No director options found in data"
      | choices =>
          let directors_list :=
            String.concat " | " (map (fun director => "**" ++ director ++ "**")
                                     choices) in
          "**Available Director Options:**" ++ newline ++ newline
          ++ directors_list ++ newline ++ newline
          ++ "*Click on any director name above to select and copy it, then paste into the DIRECTOR column cells.*"
      end
  end%string.

End Choices.

(** ** Shapes of strings used in the statements *)

Module Shape.

(** A string that is empty or begins with a character that is not white
    space. *)
Definition starts_clean (s : string) : bool :=
  match s with
  | EmptyString => true
  | String a _ => negb (Text.isspace a)
  end.

End Shape.

(** * Facts and claims *)

Lemma eqb_of_dec_true {A : Type} (dec : forall x y : A, {x = y} + {x <> y}) x y :
  eqb_of_dec dec x y = true <-> x = y.
Proof. unfold eqb_of_dec; destruct (dec x y); split; congruence. Qed.

Lemma eqb_of_dec_false {A : Type} (dec : forall x y : A, {x = y} + {x <> y}) x y :
  eqb_of_dec dec x y = false <-> x <> y.
Proof. unfold eqb_of_dec; destruct (dec x y); split; congruence. Qed.

Lemma eqb_of_dec_refl {A : Type} (dec : forall x y : A, {x = y} + {x <> y}) x :
  eqb_of_dec dec x x = true.
Proof. now apply eqb_of_dec_true. Qed.

Lemma cell_eqb_refl a : cell_eqb a a = true.
Proof. apply eqb_of_dec_refl. Qed.

Lemma cell_eqb_Some a b : cell_eqb (Some a) (Some b) = String.eqb a b.
Proof.
  destruct (String.eqb_spec a b) as [->|N].
  - apply cell_eqb_refl.
  - apply eqb_of_dec_false. congruence.
Qed.

Lemma cell_eqb_true a b : cell_eqb a b = true <-> a = b.
Proof. apply eqb_of_dec_true. Qed.

Lemma cell_eqb_false a b : cell_eqb a b = false <-> a <> b.
Proof. apply eqb_of_dec_false. Qed.

(** ** Lists *)

Module ListFacts.

Lemma find_hd_filter {A : Type} (f : A -> bool) l :
  find f l = hd_error (filter f l).
Proof.
  induction l as [|x l IH]; simpl; [reflexivity|].
  destruct (f x); simpl; auto.
Qed.

Lemma filter_nil_iff {A : Type} (f : A -> bool) l :
  filter f l = [] <-> forall x, In x l -> f x = false.
Proof.
  induction l as [|x l IH]; simpl.
  - split; [intros _ y []|reflexivity].
  - destruct (f x) eqn:E; split.
    + discriminate.
    + intros H. specialize (H x (or_introl eq_refl)). congruence.
    + intros H y [->|Hy]; [assumption|]. now apply IH.
    + intros H. apply IH. intros y Hy. apply H. now right.
Qed.

(** A filter on a duplicate-free list whose hits are all equal has at
    most one hit. *)
Lemma filter_unique {A : Type} (f : A -> bool) l :
  NoDup l ->
  (forall x y, In x l -> In y l -> f x = true -> f y = true -> x = y) ->
  filter f l = match find f l with Some x => [x] | None => [] end.
Proof.
  induction 1 as [|x l Hx Hl IH]; intros Hu; simpl; [reflexivity|].
  destruct (f x) eqn:E.
  - f_equal. apply filter_nil_iff. intros y Hy.
    destruct (f y) eqn:Ey; [|reflexivity].
    exfalso. apply Hx.
    rewrite (Hu x y); simpl; auto.
  - apply IH. intros a b Ha Hb. apply Hu; simpl; auto.
Qed.

Lemma filter_length_perm {A : Type} (f : A -> bool) l l' :
  Permutation l l' -> List.length (filter f l) = List.length (filter f l').
Proof.
  induction 1; simpl; try congruence.
  - destruct (f x); simpl; congruence.
  - destruct (f x), (f y); reflexivity.
Qed.

Lemma NoDup_map_key {A K : Type} (key : A -> K) l a b :
  NoDup (map key l) -> In a l -> In b l -> key a = key b -> a = b.
Proof.
  induction l as [|x l IH]; simpl; [tauto|].
  intros N. inversion N as [|? ? Hx Hl]; subst.
  intros [->|Ha] [->|Hb] E; auto.
  - exfalso. apply Hx. rewrite E. now apply in_map.
  - exfalso. apply Hx. rewrite <- E. now apply in_map.
Qed.

Lemma StronglySorted_filter {A : Type} (R : A -> A -> Prop) (f : A -> bool) l :
  StronglySorted R l -> StronglySorted R (filter f l).
Proof.
  induction 1 as [|x l Hs IH Hx]; simpl; [constructor|].
  destruct (f x); [|assumption].
  constructor; [assumption|].
  rewrite Forall_forall in *. intros y Hy. apply filter_In in Hy. now apply Hx.
Qed.

Lemma StronglySorted_app_r {A : Type} (R : A -> A -> Prop) l1 l2 :
  StronglySorted R (l1 ++ l2) -> StronglySorted R l2.
Proof.
  induction l1 as [|x l1 IH]; simpl; [auto|].
  intros H. inversion H; auto.
Qed.

Lemma map_flat_map {A B C : Type} (F : B -> C) (g : A -> list B) l :
  map F (flat_map g l) = flat_map (fun a => map F (g a)) l.
Proof.
  induction l as [|x l IH]; simpl; [reflexivity|]. now rewrite map_app, IH.
Qed.

Lemma hits_two {A B : Type} (g : A -> list B) (P : B -> bool) x r1 y r2 z :
  (1 <= List.length (filter P (g r1)))%nat ->
  (1 <= List.length (filter P (g r2)))%nat ->
  (2 <= List.length (filter P (flat_map g (x ++ r1 :: y ++ r2 :: z))))%nat.
Proof.
  intros H1 H2. rewrite flat_map_app. simpl. rewrite flat_map_app. simpl.
  rewrite !filter_app, !length_app. lia.
Qed.

Lemma list_sum_grows {A : Type} (h : A -> nat) l x :
  (forall y, 1 <= h y)%nat -> In x l -> (2 <= h x)%nat ->
  (List.length l < list_sum (map h l))%nat.
Proof.
  intros H1. induction l as [|y l IH]; simpl; [tauto|].
  assert (G : (List.length l <= list_sum (map h l))%nat).
  { clear IH. induction l as [|z l IH]; simpl; [lia|].
    specialize (H1 z). lia. }
  intros [->|Hx] H2.
  - lia.
  - specialize (IH Hx H2). specialize (H1 y). lia.
Qed.

Lemma find_app_skip {A : Type} (f : A -> bool) l1 l2 :
  (forall x, In x l1 -> f x = false) -> find f (l1 ++ l2) = find f l2.
Proof.
  induction l1 as [|x l1 IH]; simpl; [reflexivity|].
  intros H. rewrite (H x (or_introl eq_refl)). apply IH.
  intros y Hy. apply H. now right.
Qed.

Lemma forallb_false_iff {A : Type} (f : A -> bool) l :
  forallb f l = false <-> exists x, In x l /\ f x = false.
Proof.
  induction l as [|x l IH]; simpl.
  - split; [discriminate|intros (x & [] & _)].
  - destruct (f x) eqn:E; simpl.
    + rewrite IH. split; intros (y & Hy & Fy); [eauto|].
      destruct Hy as [<-|Hy]; [congruence|eauto].
    + split; [eauto|reflexivity].
Qed.

Lemma In_skipn {A : Type} n (l : list A) x : In x (skipn n l) -> In x l.
Proof.
  revert l. induction n as [|n IH]; intros [|y l]; simpl; auto.
Qed.

Lemma two_positions {A : Type} (l : list A) i j x y :
  (i < j)%nat -> nth_error l i = Some x -> nth_error l j = Some y ->
  exists l1 l2 l3, l = l1 ++ x :: l2 ++ y :: l3.
Proof.
  intros Hij Hi Hj.
  apply nth_error_split in Hi as (l1 & t & -> & Hlen).
  rewrite nth_error_app2 in Hj by lia.
  destruct (j - List.length l1)%nat as [|k] eqn:E; [lia|].
  simpl in Hj. apply nth_error_split in Hj as (l2 & l3 & -> & _).
  eauto.
Qed.

Lemma last_cons_default {A : Type} (t : list A) : forall y x,
  last (y :: t) x = last t y.
Proof.
  induction t as [|z t IH]; intros y x; [reflexivity|].
  change (last (y :: z :: t) x) with (last (z :: t) x).
  now rewrite (IH z x), (IH z y).
Qed.

End ListFacts.

(** ** Data-frame operations *)

Module FrameFacts.
Import Frame ListFacts.

Section Merge.
Context {A B : Type} (matches : A -> B -> bool).

Lemma left_rows_fst right a rb :
  In rb (left_rows matches right a) -> fst rb = a.
Proof.
  unfold left_rows. destruct (filter (matches a) right) eqn:E.
  - intros [<-|[]]. reflexivity.
  - rewrite <- E. intros H. apply in_map_iff in H as (b' & <- & _). reflexivity.
Qed.

Lemma left_rows_length right a :
  List.length (left_rows matches right a)
  = Nat.max 1 (List.length (filter (matches a) right)).
Proof.
  unfold left_rows. destruct (filter (matches a) right) as [|b bs].
  - reflexivity.
  - rewrite length_map. simpl. reflexivity.
Qed.

Lemma left_rows_snd right a rb :
  In rb (left_rows matches right a) ->
  match snd rb with
  | Some b => In b right /\ matches a b = true
  | None => forall b, In b right -> matches a b = false
  end.
Proof.
  unfold left_rows. destruct (filter (matches a) right) eqn:E.
  - intros [<-|[]]. simpl. now apply filter_nil_iff.
  - rewrite <- E. intros H. apply in_map_iff in H as (b' & <- & Hb).
    simpl. now apply filter_In in Hb.
Qed.

Lemma left_rows_find right a :
  (List.length (filter (matches a) right) <= 1)%nat ->
  left_rows matches right a = [(a, find (matches a) right)].
Proof.
  unfold left_rows. rewrite find_hd_filter.
  destruct (filter (matches a) right) as [|b [|c bs]]; simpl;
    intros H; try reflexivity; lia.
Qed.

Lemma merge_left_In left right a ob :
  In (a, ob) (merge_left matches left right) <->
  In a left /\ In (a, ob) (left_rows matches right a).
Proof.
  unfold merge_left. rewrite in_flat_map. split.
  - intros (x & Hx & Hin).
    pose proof (left_rows_fst _ _ _ Hin) as E. simpl in E. subst x. auto.
  - intros (Ha & Hin). eauto.
Qed.

Lemma merge_inner_In left right a b :
  In (a, b) (merge_inner matches left right) <->
  In a left /\ In b right /\ matches a b = true.
Proof.
  unfold merge_inner. rewrite in_flat_map. split.
  - intros (x & Hx & Hin). apply in_map_iff in Hin as (y & E & Hy).
    inversion E; subst. apply filter_In in Hy. tauto.
  - intros (Ha & Hb & Hm). exists a. split; [assumption|].
    apply in_map. apply filter_In. auto.
Qed.

End Merge.

(** [drop_duplicates] on the columns [key]. *)
Section Dedup.
Context {A K : Type} (key : A -> K) (same : A -> A -> bool).
Hypothesis same_key : forall a b, same a b = true <-> key a = key b.

Lemma existsb_same x seen :
  existsb (same x) seen = true <-> In (key x) (map key seen).
Proof.
  rewrite existsb_exists, in_map_iff. split.
  - intros (y & Hy & E). exists y. split; [symmetry; now apply same_key|auto].
  - intros (y & E & Hy). exists y. split; [auto|]. now apply same_key.
Qed.

Lemma drop_dups_In x seen l :
  In x (drop_dups same seen l) -> In x l /\ ~ In (key x) (map key seen).
Proof.
  revert seen. induction l as [|y l IH]; intros seen; simpl; [tauto|].
  destruct (existsb (same y) seen) eqn:E.
  - intros H. apply IH in H. tauto.
  - intros [->|H].
    + split; [auto|]. rewrite <- existsb_same. congruence.
    + apply IH in H. simpl in H. tauto.
Qed.

Lemma drop_dups_keys_NoDup seen l : NoDup (map key (drop_dups same seen l)).
Proof.
  revert seen. induction l as [|y l IH]; intros seen; simpl; [constructor|].
  destruct (existsb (same y) seen) eqn:E; [apply IH|].
  simpl. constructor; [|apply IH].
  intros H. apply in_map_iff in H as (z & Ez & Hz).
  apply drop_dups_In in Hz as [_ Hz]. apply Hz. simpl. auto.
Qed.

Lemma drop_dups_complete y seen l :
  In y l -> ~ In (key y) (map key seen) ->
  exists x, In x (drop_dups same seen l) /\ key x = key y.
Proof.
  revert seen. induction l as [|z l IH]; intros seen; simpl; [tauto|].
  intros Hy Hs. destruct (existsb (same z) seen) eqn:E.
  - destruct Hy as [->|Hy].
    + apply existsb_same in E. contradiction.
    + apply IH; assumption.
  - destruct Hy as [->|Hy]; [exists y; simpl; auto|].
    destruct (same y z) eqn:Eyz.
    + exists z. split; [simpl; auto|]. symmetry. now apply same_key.
    + destruct (IH (z :: seen) Hy) as (x & Hx & Ex).
      * simpl. intros [Hk|Hk]; [|contradiction].
        symmetry in Hk. apply same_key in Hk. congruence.
      * exists x. simpl. auto.
Qed.

(** The first row of a given key survives, so the first hit of a test
    that only looks at the key columns is the same before and after. *)
Lemma drop_dups_find (f : A -> bool) seen l :
  (forall a b, key a = key b -> f a = f b) ->
  (forall y, In y seen -> f y = false) ->
  find f (drop_dups same seen l) = find f l.
Proof.
  intros Hf. revert seen. induction l as [|x l IH]; intros seen Hs; simpl;
    [reflexivity|].
  destruct (existsb (same x) seen) eqn:E.
  - apply existsb_exists in E as (y & Hy & Exy).
    apply same_key in Exy. rewrite (Hf x y Exy), (Hs y Hy). now apply IH.
  - simpl. destruct (f x) eqn:Efx; [reflexivity|].
    apply IH. intros y [<-|Hy]; auto.
Qed.

(** The rows before the first row of a key hold no row of that key. *)
Lemma drop_dups_split x seen l :
  In x (drop_dups same seen l) ->
  exists l1 l2, l = l1 ++ x :: l2 /\ ~ In (key x) (map key l1).
Proof.
  revert seen. induction l as [|y l IH]; intros seen; simpl; [tauto|].
  destruct (existsb (same y) seen) eqn:E.
  - intros H. pose proof (drop_dups_In _ _ _ H) as [_ Hs].
    destruct (IH _ H) as (l1 & l2 & -> & Hk).
    exists (y :: l1), l2. split; [reflexivity|].
    simpl. intros [Hy|Hy]; [|contradiction].
    apply Hs. rewrite <- Hy. now apply existsb_same.
  - intros [->|H].
    + exists [], l. simpl. auto.
    + pose proof (drop_dups_In _ _ _ H) as [_ Hs].
      destruct (IH _ H) as (l1 & l2 & -> & Hk).
      exists (y :: l1), l2. split; [reflexivity|].
      simpl. intros [Hy|Hy]; [|contradiction].
      apply Hs. simpl. auto.
Qed.

End Dedup.

(** [drop_duplicates] on all columns. *)
Section DedupAll.
Context {A : Type} (dec : forall x y : A, {x = y} + {x <> y}).

Lemma drop_duplicates_In x l :
  In x (drop_duplicates (eqb_of_dec dec) l) <-> In x l.
Proof.
  split.
  - intros H.
    apply (drop_dups_In (fun a => a) _ (eqb_of_dec_true dec)) in H. tauto.
  - intros H.
    destruct (drop_dups_complete (fun a => a) _ (eqb_of_dec_true dec) x [] l H)
      as (y & Hy & ->); auto.
Qed.

Lemma drop_duplicates_NoDup l : NoDup (drop_duplicates (eqb_of_dec dec) l).
Proof.
  pose proof (drop_dups_keys_NoDup (fun a => a) _ (eqb_of_dec_true dec) [] l) as H.
  now rewrite map_id in H.
Qed.

Lemma drop_duplicates_find f l :
  find f (drop_duplicates (eqb_of_dec dec) l) = find f l.
Proof.
  apply (drop_dups_find (fun a => a) _ (eqb_of_dec_true dec)).
  - intros a b ->. reflexivity.
  - intros y [].
Qed.

End DedupAll.

(** [sort_values]: a permutation, sorted, and stable. *)
Section Sort.
Context {A : Type} (le : A -> A -> bool).

Lemma insert_row_perm x l : Permutation (insert_row le x l) (x :: l).
Proof.
  induction l as [|y l IH]; simpl; [reflexivity|].
  destruct (le x y); [reflexivity|].
  rewrite IH. apply perm_swap.
Qed.

Lemma sort_values_perm l : Permutation (sort_values le l) l.
Proof.
  induction l as [|x l IH]; simpl; [reflexivity|].
  rewrite insert_row_perm. now constructor.
Qed.

(** Rows that the order does not tell apart keep their relative order. *)
Lemma insert_row_filter (P : A -> bool) x l :
  (forall y, P x = true -> P y = true -> le x y = true) ->
  filter P (insert_row le x l) = filter P (x :: l).
Proof.
  intros HP. induction l as [|y l IH]; simpl; [reflexivity|].
  destruct (le x y) eqn:E; [reflexivity|].
  simpl. rewrite IH. simpl.
  destruct (P x) eqn:Ex, (P y) eqn:Ey; try reflexivity.
  rewrite HP in E; congruence.
Qed.

Lemma sort_values_filter (P : A -> bool) l :
  (forall x y, P x = true -> P y = true -> le x y = true) ->
  filter P (sort_values le l) = filter P l.
Proof.
  intros HP. induction l as [|x l IH]; simpl; [reflexivity|].
  rewrite insert_row_filter by (intros y; apply HP).
  simpl. now rewrite IH.
Qed.

Hypothesis le_total : forall a b, le a b = false -> le b a = true.
Hypothesis le_trans : forall a b c, le a b = true -> le b c = true -> le a c = true.

Lemma insert_row_sorted x l :
  StronglySorted (fun a b => le a b = true) l ->
  StronglySorted (fun a b => le a b = true) (insert_row le x l).
Proof.
  induction 1 as [|y l Hs IH Hy]; simpl.
  - constructor; constructor.
  - destruct (le x y) eqn:E.
    + constructor; [constructor; assumption|].
      constructor; [assumption|].
      rewrite Forall_forall in *. intros z Hz. eauto.
    + constructor; [assumption|].
      rewrite Forall_forall in *. intros z Hz.
      apply (Permutation_in _ (insert_row_perm x l)) in Hz.
      destruct Hz as [<-|Hz]; auto.
Qed.

Lemma sort_values_sorted l :
  StronglySorted (fun a b => le a b = true) (sort_values le l).
Proof.
  induction l as [|x l IH]; simpl; [constructor|].
  now apply insert_row_sorted.
Qed.

End Sort.

End FrameFacts.

(** ** The tabular normaliser *)

Module NormalizerFacts.
Import ListFacts Normalizer.

Lemma non_empty_blank v : non_empty v = negb (blank v).
Proof. destruct v; reflexivity. Qed.

Lemma non_empty_from_length idx row :
  List.length (non_empty_from idx row) = filled row.
Proof.
  unfold filled. revert idx. induction row as [|v row IH]; intros idx; simpl;
    [reflexivity|].
  rewrite <- non_empty_blank. destruct (non_empty v); simpl; now rewrite IH.
Qed.

(** The first index listed is the place of the first cell that is not
    blank. *)
Lemma non_empty_from_hd idx row :
  (0 < filled row)%nat ->
  exists j, hd 0 (non_empty_from idx row) = (idx + j)%nat
            /\ (j < List.length row)%nat
            /\ blank (nth j row None) = false
            /\ forall k, (k < j)%nat -> blank (nth k row None) = true.
Proof.
  unfold filled. revert idx. induction row as [|v row IH]; intros idx; simpl;
    [lia|].
  rewrite non_empty_blank. destruct (blank v) eqn:B; simpl.
  - intros H. destruct (IH (S idx) H) as (j & Hj & L & Bj & Hk).
    exists (S j). repeat split; [rewrite Hj; lia|lia|exact Bj|].
    intros [|k] Hlt; [exact B|]. apply Hk. lia.
  - intros _. exists 0. repeat split; [lia|lia|exact B|].
    intros k Hk. lia.
Qed.

Lemma find_header_none i rows :
  (forall row, In row rows -> (filled row <= 3)%nat) ->
  find_header i rows = None.
Proof.
  revert i. induction rows as [|row rows IH]; intros i H; simpl; [reflexivity|].
  unfold non_empty_indices. rewrite non_empty_from_length.
  destruct (Nat.ltb_spec 3 (filled row)) as [L|L].
  - specialize (H row (or_introl eq_refl)). lia.
  - apply IH. intros r Hr. apply H. now right.
Qed.

Lemma find_header_some i0 rows i row :
  nth_error rows i = Some row -> (3 < filled row)%nat ->
  (forall k row', (k < i)%nat -> nth_error rows k = Some row' ->
                  (filled row' <= 3)%nat) ->
  find_header i0 rows = Some ((i0 + i)%nat, hd 0 (non_empty_indices row)).
Proof.
  revert i0 i. induction rows as [|r rows IH]; intros i0 i Hn Hf Hbefore.
  - destruct i; discriminate.
  - simpl. unfold non_empty_indices at 1. rewrite non_empty_from_length.
    destruct i as [|i]; simpl in Hn.
    + inversion Hn; subst r. destruct (Nat.ltb_spec 3 (filled row)); [|lia].
      now rewrite Nat.add_0_r.
    + destruct (Nat.ltb_spec 3 (filled r)) as [L|L].
      * specialize (Hbefore 0%nat r). simpl in Hbefore.
        specialize (Hbefore ltac:(lia) eq_refl). lia.
      * rewrite (IH (S i0) i Hn Hf).
        -- f_equal. f_equal. lia.
        -- intros k row' Hk Hrow'. apply (Hbefore (S k) row'); [lia|exact Hrow'].
Qed.

Lemma find_header_found i0 rows hdr :
  find_header i0 rows = Some hdr ->
  exists row, In row rows /\ (3 < filled row)%nat.
Proof.
  revert i0. induction rows as [|r rows IH]; intros i0; simpl; [discriminate|].
  unfold non_empty_indices. rewrite non_empty_from_length.
  destruct (Nat.ltb_spec 3 (filled r)) as [L|L].
  - intros _. exists r. auto.
  - intros H. destruct (IH _ H) as (row & Hr & Hf). exists row. auto.
Qed.

Lemma rebase_skip target i j :
  rebase target (i, j) = map (skipn j) (skipn i target).
Proof.
  unfold rebase. simpl. destruct j as [|j]; simpl; [|reflexivity].
  symmetry. apply map_id.
Qed.

Lemma find_header_exists i0 rows :
  (exists row, In row rows /\ (3 < filled row)%nat) ->
  exists hdr, find_header i0 rows = Some hdr.
Proof.
  revert i0. induction rows as [|r rows IH]; intros i0 (row & Hr & Hf);
    [destruct Hr|].
  simpl. unfold non_empty_indices. rewrite non_empty_from_length.
  destruct (Nat.ltb_spec 3 (filled r)) as [L|L]; [eauto|].
  destruct Hr as [->|Hr]; [lia|]. apply IH. eauto.
Qed.

Lemma rectangular_In s r r' :
  rectangular s = true -> In r s -> In r' s -> List.length r = List.length r'.
Proof.
  destruct s as [|h t]; simpl; [tauto|].
  intros H. rewrite forallb_forall in H.
  assert (G : forall x, In x (h :: t) -> List.length x = List.length h).
  { intros x [<-|Hx]; [reflexivity|]. now apply Nat.eqb_eq, H. }
  intros Hr Hr'. now rewrite (G r Hr), (G r' Hr').
Qed.

Lemma rebase_rectangular target i j r r' :
  rectangular target = true ->
  In r (map (skipn j) (skipn i target)) ->
  In r' (map (skipn j) (skipn i target)) ->
  List.length r = List.length r'.
Proof.
  intros Hrect Hr Hr'.
  apply in_map_iff in Hr as (x & <- & Hx), Hr' as (y & <- & Hy).
  apply In_skipn in Hx, Hy. rewrite !length_skipn.
  now rewrite (rectangular_In target x y Hrect Hx Hy).
Qed.

Lemma some_cell_present r :
  forallb isnull r = false ->
  exists k, (k < List.length r)%nat /\ isnull (nth k r None) = false.
Proof.
  induction r as [|c r IH]; simpl; [discriminate|].
  destruct (isnull c) eqn:E; simpl.
  - intros H. destruct (IH H) as (k & Hk & Nk). exists (S k). split; [lia|auto].
  - intros _. exists 0%nat. split; [lia|auto].
Qed.

Lemma take_columns_length mask r r' :
  List.length r = List.length mask -> List.length r' = List.length mask ->
  List.length (take_columns mask r) = List.length (take_columns mask r').
Proof.
  revert r r'. induction mask as [|m mask IH]; intros [|c r] [|c' r'];
    simpl; try discriminate; try reflexivity.
  intros H H'. injection H as H. injection H' as H'.
  destruct m; simpl; auto.
Qed.

Lemma take_columns_In mask r k d :
  List.length r = List.length mask -> nth k mask false = true ->
  In (nth k r d) (take_columns mask r).
Proof.
  revert r k. induction mask as [|m mask IH]; intros [|c r] k; simpl;
    try discriminate.
  - destruct k; discriminate.
  - intros H. injection H as H. destruct k as [|k].
    + intros ->. simpl. auto.
    + intros Hk. destruct m; [right|]; now apply IH.
Qed.

Lemma take_columns_nth mask r k d :
  List.length r = List.length mask ->
  (k < List.length (take_columns mask r))%nat ->
  (kept_index mask k < List.length mask)%nat
  /\ nth (kept_index mask k) mask false = true
  /\ nth k (take_columns mask r) d = nth (kept_index mask k) r d.
Proof.
  revert r k. induction mask as [|m mask IH]; intros [|c r] k; simpl;
    try discriminate; try lia.
  intros H. injection H as H. destruct m; simpl.
  - destruct k as [|k]; simpl; [intros _; repeat split; lia|].
    intros Hk. destruct (IH r k H) as (L & M & N); [lia|].
    repeat split; [lia|assumption|assumption].
  - intros Hk. destruct (IH r k H Hk) as (L & M & N).
    repeat split; [lia|assumption|assumption].
Qed.

Lemma mask_nth (g : nat -> bool) n k :
  (k < n)%nat -> nth k (map g (seq 0 n)) false = g k.
Proof.
  intros H. rewrite (nth_indep _ false (g 0%nat)) by (now rewrite length_map, length_seq).
  rewrite map_nth. now rewrite seq_nth.
Qed.

(** Line 56 on a frame whose rows are as long as the header and hold a
    cell each: the same is true afterwards, and every column left holds
    a cell. *)
Lemma drop_null_columns_full hdr rows :
  (forall r, In r rows -> List.length r = List.length hdr
                          /\ forallb isnull r = false) ->
  let f := drop_null_columns (mkFrame hdr rows) in
  (forall row, In row (data f) ->
               List.length row = List.length (columns f)
               /\ exists c, In c row /\ isnull c = false)
  /\ (forall k, (k < List.length (columns f))%nat ->
                exists row, In row (data f) /\ isnull (nth k row None) = false).
Proof.
  intros Hrows. unfold drop_null_columns. cbn [columns data].
  set (mask := map (fun k => negb (all_null rows k)) (seq 0 (List.length hdr))).
  assert (Lmask : List.length mask = List.length hdr)
    by (unfold mask; now rewrite length_map, length_seq).
  split.
  - intros row Hrow. apply in_map_iff in Hrow as (r & <- & Hr).
    destruct (Hrows r Hr) as [Lr Nr]. split.
    + apply take_columns_length; congruence.
    + destruct (some_cell_present r Nr) as (k & Hk & Nk).
      exists (nth k r None). split; [|exact Nk].
      apply take_columns_In; [congruence|].
      unfold mask. rewrite mask_nth by lia.
      apply negb_true_iff, forallb_false_iff. eauto.
  - intros k Hk.
    destruct (take_columns_nth mask hdr k None (eq_sym Lmask) Hk)
      as (L & M & _).
    unfold mask in M. rewrite mask_nth in M by (fold mask; lia).
    apply negb_true_iff, forallb_false_iff in M as (r & Hr & Nr).
    exists (take_columns mask r). split; [now apply in_map|].
    destruct (Hrows r Hr) as [Lr _].
    destruct (take_columns_nth mask r k None) as (_ & _ & N); [congruence| |].
    + rewrite (take_columns_length mask r hdr); [exact Hk|congruence|congruence].
    + fold mask. rewrite N. exact Nr.
Qed.

End NormalizerFacts.

(** ** The claims on the tabular normaliser *)

Section NormalizerClaims.
Import Normalizer NormalizerFacts.

(** C9.  On the selected sheet, the header row is the first row with more
    than 3 cells that are not blank: the rows above it and the columns
    before its first such cell are cut off every row before the frame is
    built; when no row has more than 3 such cells no table is produced,
    and the error of a sheet that is not empty is the missing header
    row. *)
Theorem header_row_detection :
  forall all_sheets target,
    target_sheet all_sheets = Some target ->
    ((forall row, In row target -> (filled row <= 3)%nat) ->
     (forall f, clean_excel all_sheets <> Cleaned f)
     /\ (empty target = false -> clean_excel all_sheets = NoHeaderRow))
    /\ (forall i row,
           empty target = false ->
           nth_error target i = Some row -> (3 < filled row)%nat ->
           (forall k row', (k < i)%nat -> nth_error target k = Some row' ->
                           (filled row' <= 3)%nat) ->
           exists j,
             (j < List.length row)%nat
             /\ blank (nth j row None) = false
             /\ (forall k, (k < j)%nat -> blank (nth k row None) = true)
             /\ clean_excel all_sheets
                = Cleaned (to_frame (map (skipn j) (skipn i target)))).
Proof.
  intros all_sheets target Ht. unfold clean_excel. rewrite Ht. split.
  - intros Hnone. rewrite (find_header_none 0 target Hnone).
    split; [destruct (empty target); discriminate|].
    intros ->. reflexivity.
  - intros i row He Hn Hf Hbefore. rewrite He.
    rewrite (find_header_some 0 target i row Hn Hf Hbefore).
    destruct (non_empty_from_hd 0 row) as (j & Hj & L & Bj & Hk); [lia|].
    exists j. repeat split; auto.
    unfold non_empty_indices. rewrite Hj. simpl.
    now rewrite rebase_skip.
Qed.

(** C9 on a sheet with a title row and an empty first column. *)
Lemma header_row_detection_witness :
  exists j,
    (j < 6)%nat
    /\ blank (nth j [None; Some " "; Some "a"; Some "b"; Some "c"; Some "d"] None)
       = false
    /\ (forall k, (k < j)%nat ->
                  blank (nth k [None; Some " "; Some "a"; Some "b"; Some "c";
                                Some "d"] None) = true)
    /\ clean_excel
         [("Sheet1",
           [[Some "report"; None; None; None; None; None];
            [None; Some " "; Some "a"; Some "b"; Some "c"; Some "d"];
            [None; None; Some "1"; Some "2"; Some "3"; Some "4"]])]
       = Cleaned
           (to_frame
              (map (skipn j)
                   (skipn 1
                      [[Some "report"; None; None; None; None; None];
                       [None; Some " "; Some "a"; Some "b"; Some "c"; Some "d"];
                       [None; None; Some "1"; Some "2"; Some "3"; Some "4"]]))).
Proof.
  destruct (header_row_detection
              [("Sheet1",
                [[Some "report"; None; None; None; None; None];
                 [None; Some " "; Some "a"; Some "b"; Some "c"; Some "d"];
                 [None; None; Some "1"; Some "2"; Some "3"; Some "4"]])]
              [[Some "report"; None; None; None; None; None];
               [None; Some " "; Some "a"; Some "b"; Some "c"; Some "d"];
               [None; None; Some "1"; Some "2"; Some "3"; Some "4"]]
              eq_refl) as [_ H].
  destruct (H 1%nat [None; Some " "; Some "a"; Some "b"; Some "c"; Some "d"])
    as (j & L & B & K & E).
  - reflexivity.
  - reflexivity.
  - vm_compute. lia.
  - intros [|k] row' Hk Hrow'; [|lia].
    inversion Hrow'; subst. vm_compute. lia.
  - exists j. simpl in L. repeat split; auto.
Defined.

(** C5, as stated, fails: a header row that names two columns alike is
    accepted, and both columns keep the name. *)
Lemma repeated_names_are_accepted :
  clean_excel [("Sheet1", repeated_names)]
  = Cleaned (mkFrame [Some "a"; Some "a"; Some "b"; Some "c"]
                     [[Some "1"; Some "2"; Some "3"; Some "4"]]).
Proof. vm_compute. reflexivity. Qed.

(** C5, amended.  The column names play no part in the success of the
    normaliser: it returns a table exactly when there is a sheet, the
    selected sheet is not empty, and one of its rows has more than 3
    cells that are not blank. *)
Theorem header_names_are_not_checked :
  forall all_sheets,
    (exists f, clean_excel all_sheets = Cleaned f) <->
    (exists target,
        target_sheet all_sheets = Some target /\ empty target = false
        /\ exists row, In row target /\ (3 < filled row)%nat).
Proof.
  intros all_sheets. unfold clean_excel. split.
  - intros (f & H). destruct (target_sheet all_sheets) as [target|];
      [|discriminate].
    exists target. destruct (empty target); [discriminate|].
    destruct (find_header 0 target) as [hdr|] eqn:E; [|discriminate].
    repeat split; auto. eapply find_header_found; eassumption.
  - intros (target & -> & -> & Hrow).
    destruct (find_header_exists 0 target Hrow) as (hdr & ->). eauto.
Qed.

(** C6, as stated, fails: a data row whose cells are a space and missing
    values is kept, though each of its cells is blank. *)
Lemma blank_row_is_kept :
  exists f row,
    clean_excel [("Sheet1", space_row)] = Cleaned f
    /\ In row (data f) /\ forallb blank row = true.
Proof.
  exists (mkFrame [Some "a"; Some "b"]
                  [[Some " "; None]; [Some "1"; Some "2"]]), [Some " "; None].
  split; [vm_compute; reflexivity|]. split; [simpl; auto|reflexivity].
Qed.

(** C6, amended.  In the frame returned for a rectangular sheet every
    data row is as long as the header and holds a cell that is not
    missing, and every column holds a cell that is not missing in some
    data row. *)
Theorem no_missing_row_or_column :
  forall all_sheets target f,
    target_sheet all_sheets = Some target -> rectangular target = true ->
    clean_excel all_sheets = Cleaned f ->
    (forall row, In row (data f) ->
                 List.length row = List.length (columns f)
                 /\ exists c, In c row /\ isnull c = false)
    /\ (forall k, (k < List.length (columns f))%nat ->
                  exists row, In row (data f)
                              /\ isnull (nth k row None) = false).
Proof.
  intros all_sheets target f Ht Hrect. unfold clean_excel. rewrite Ht.
  destruct (empty target); [discriminate|].
  destruct (find_header 0 target) as [[i j]|]; [|discriminate].
  intros H. injection H as <-. rewrite rebase_skip. unfold to_frame.
  pose proof (rebase_rectangular target i j) as R.
  destruct (map (skipn j) (skipn i target)) as [|hdr rows].
  - apply (drop_null_columns_full [] []). intros r [].
  - apply drop_null_columns_full. intros r Hr. simpl in Hr.
    unfold dropna_all in Hr. apply filter_In in Hr as [Hr Nr].
    split; [|now apply negb_true_iff].
    apply R; simpl; auto.
Qed.

(** C6 on the frame returned for [space_row]. *)
Lemma no_missing_row_or_column_witness :
  (forall row,
      In row [[Some " "; None]; [Some "1"; Some "2"]] ->
      List.length row = 2%nat /\ exists c, In c row /\ isnull c = false)
  /\ (forall k, (k < 2)%nat ->
                exists row, In row [[Some " "; None]; [Some "1"; Some "2"]]
                            /\ isnull (nth k row None) = false).
Proof.
  apply (no_missing_row_or_column
           [("Sheet1", space_row)] space_row
           (mkFrame [Some "a"; Some "b"]
                    [[Some " "; None]; [Some "1"; Some "2"]]));
    vm_compute; reflexivity.
Defined.

End NormalizerClaims.

(** ** The count table of the majority vote *)

Module CountFacts.
Import Frame ListFacts FrameFacts Resolver.

Lemma compare_refl s : String.compare s s = Eq.
Proof. now apply String_as_OT.cmp_eq. Qed.

Lemma compare_eq s t : String.compare s t = Eq <-> s = t.
Proof. apply String_as_OT.cmp_eq. Qed.

Lemma compare_lt_trans a b c :
  String.compare a b = Lt -> String.compare b c = Lt -> String.compare a c = Lt.
Proof.
  intros H1 H2. apply String_as_OT.cmp_lt.
  apply String_as_OT.cmp_lt in H1, H2.
  eapply String_as_OT.lt_trans; eassumption.
Qed.

Lemma compare_gt_lt a b : String.compare a b = Gt <-> String.compare b a = Lt.
Proof.
  rewrite (String.compare_antisym a b).
  destruct (String.compare b a); simpl; split; congruence.
Qed.

Lemma compare_lt_irrefl a : String.compare a a <> Lt.
Proof. rewrite compare_refl. discriminate. Qed.

Lemma key_compare_eq c p m g :
  key_compare c p m g = Eq <-> g_Code g = c /\ g_PAG g = p /\ g_MS g = m.
Proof.
  unfold key_compare.
  destruct (String.compare c (g_Code g)) eqn:E1;
    [apply compare_eq in E1; subst c| |];
    try (split; [discriminate|intros (H & _); subst c;
                 rewrite compare_refl in E1; discriminate]).
  destruct (String.compare p (g_PAG g)) eqn:E2;
    [apply compare_eq in E2; subst p| |];
    try (split; [discriminate|intros (_ & H & _); subst p;
                 rewrite compare_refl in E2; discriminate]).
  rewrite compare_eq. split; [intros ->; auto|intros (_ & _ & ->); reflexivity].
Qed.

Lemma has_key_true c p m g :
  has_key c p m g = true <-> g_Code g = c /\ g_PAG g = p /\ g_MS g = m.
Proof.
  unfold has_key. rewrite <- key_compare_eq.
  destruct (key_compare c p m g); split; congruence.
Qed.

Lemma key_compare_gt c p m g :
  key_compare c p m g = Gt -> key_lt g (mkCount c p m 1).
Proof.
  unfold key_lt, key_compare. simpl.
  rewrite (String.compare_antisym (g_Code g) c).
  rewrite (String.compare_antisym (g_PAG g) p).
  rewrite (String.compare_antisym (g_MS g) m).
  destruct (String.compare c (g_Code g)); simpl; try congruence.
  destruct (String.compare p (g_PAG g)); simpl; try congruence.
  destruct (String.compare m (g_MS g)); simpl; congruence.
Qed.

Lemma key_lt_iff a b :
  key_lt a b <->
  String.compare (g_Code a) (g_Code b) = Lt \/
  (g_Code a = g_Code b /\
   (String.compare (g_PAG a) (g_PAG b) = Lt \/
    (g_PAG a = g_PAG b /\ String.compare (g_MS a) (g_MS b) = Lt))).
Proof.
  unfold key_lt, key_compare.
  destruct (String.compare (g_Code a) (g_Code b)) eqn:E1.
  - apply compare_eq in E1.
    destruct (String.compare (g_PAG a) (g_PAG b)) eqn:E2.
    + apply compare_eq in E2. intuition congruence.
    + intuition congruence.
    + split; [discriminate|]. intros [H|(_ & [H|(H & _)])]; try discriminate.
      rewrite H, compare_refl in E2. discriminate.
  - tauto.
  - split; [discriminate|]. intros [H|(H & _)]; try discriminate.
    rewrite H, compare_refl in E1. discriminate.
Qed.

Lemma key_lt_trans a b c : key_lt a b -> key_lt b c -> key_lt a c.
Proof.
  rewrite !key_lt_iff.
  intros [H1|(E1 & [H1|(E1' & H1)])] [H2|(E2 & [H2|(E2' & H2)])];
    try rewrite E1; try rewrite <- E2; try rewrite E1'; try rewrite <- E2';
    eauto 6 using compare_lt_trans.
Qed.

Lemma key_lt_same_key a b b' :
  g_Code b = g_Code b' -> g_PAG b = g_PAG b' -> g_MS b = g_MS b' ->
  key_lt a b -> key_lt a b'.
Proof. unfold key_lt, key_compare. intros -> -> ->. auto. Qed.

Lemma key_lt_neq a b : key_lt a b -> has_key (g_Code a) (g_PAG a) (g_MS a) b = false.
Proof. unfold key_lt, has_key. intros ->. reflexivity. Qed.

(** The rows of [bump c p m t] carry the key [(c, p, m)] or a key of [t]. *)
Lemma bump_keys c p m t g :
  In g (bump c p m t) ->
  (g_Code g = c /\ g_PAG g = p /\ g_MS g = m) \/
  exists g', In g' t /\ g_Code g' = g_Code g /\ g_PAG g' = g_PAG g
             /\ g_MS g' = g_MS g.
Proof.
  induction t as [|h t IH]; simpl.
  - intros [<-|[]]. left. auto.
  - destruct (key_compare c p m h) eqn:E.
    + intros [<-|H]; right; [exists h; simpl; auto|exists g; simpl; auto].
    + intros [<-|[<-|H]]; [left; auto|right; exists h; simpl; auto|].
      right. exists g. simpl. auto.
    + intros [<-|H]; [right; exists h; simpl; auto|].
      destruct (IH H) as [K|(g' & Hg' & K)]; [left; assumption|].
      right. exists g'. simpl. auto.
Qed.

Lemma bump_sorted c p m t :
  StronglySorted key_lt t -> StronglySorted key_lt (bump c p m t).
Proof.
  induction 1 as [|h t Hs IH Hh]; simpl.
  - constructor; constructor.
  - destruct (key_compare c p m h) eqn:E.
    + constructor; [assumption|].
      rewrite Forall_forall in *. intros z Hz. apply Hh in Hz. exact Hz.
    + constructor; [constructor; assumption|].
      constructor; [exact E|].
      rewrite Forall_forall in *. intros z Hz.
      apply key_lt_trans with h; [exact E|auto].
    + constructor; [assumption|].
      rewrite Forall_forall in *. intros z Hz.
      destruct (bump_keys _ _ _ _ _ Hz) as [(K1 & K2 & K3)|(g' & Hg' & K1 & K2 & K3)].
      * apply key_lt_same_key with (mkCount c p m 1); simpl; auto.
        now apply key_compare_gt.
      * apply key_lt_same_key with g'; auto.
Qed.

Lemma bump_positive c p m t :
  Forall (fun g => 0 < Count g)%nat t ->
  Forall (fun g => 0 < Count g)%nat (bump c p m t).
Proof.
  induction 1 as [|h t Hh Ht IH]; simpl.
  - repeat constructor.
  - destruct (key_compare c p m h); constructor; simpl; auto; lia.
Qed.

Lemma tally_bump c p m t c' p' m' :
  tally (bump c p m t) c' p' m'
  = (tally t c' p' m' + if has_key c' p' m' (mkCount c p m 1) then 1 else 0)%nat.
Proof.
  unfold tally. induction t as [|h t IH]; simpl.
  - destruct (has_key c' p' m' (mkCount c p m 1)); reflexivity.
  - destruct (key_compare c p m h) eqn:E; simpl.
    + apply key_compare_eq in E as (E1 & E2 & E3).
      assert (K : has_key c' p' m' (mkCount (g_Code h) (g_PAG h) (g_MS h) (S (Count h)))
                  = has_key c' p' m' h) by reflexivity.
      assert (K' : has_key c' p' m' (mkCount c p m 1) = has_key c' p' m' h)
        by (subst; reflexivity).
      rewrite K, K'. destruct (has_key c' p' m' h); simpl; lia.
    + destruct (has_key c' p' m' (mkCount c p m 1)), (has_key c' p' m' h);
        simpl; lia.
    + destruct (has_key c' p' m' h); simpl; rewrite IH; lia.
Qed.

Lemma tally_sorted_In t g :
  StronglySorted key_lt t -> In g t ->
  tally t (g_Code g) (g_PAG g) (g_MS g) = Count g.
Proof.
  unfold tally. induction 1 as [|h t Hs IH Hh]; simpl; [tauto|].
  rewrite Forall_forall in Hh. intros [->|Hg].
  - assert (K : has_key (g_Code g) (g_PAG g) (g_MS g) g = true)
      by (apply has_key_true; auto).
    rewrite K. simpl.
    assert (Z : filter (has_key (g_Code g) (g_PAG g) (g_MS g)) t = []).
    { apply filter_nil_iff. intros y Hy. apply key_lt_neq. auto. }
    rewrite Z. simpl. lia.
  - destruct (has_key (g_Code g) (g_PAG g) (g_MS g) h) eqn:K; [|auto].
    apply has_key_true in K as (K1 & K2 & K3).
    pose proof (Hh g Hg) as L. apply key_lt_neq in L.
    assert (L' : has_key (g_Code h) (g_PAG h) (g_MS h) g = true)
      by (apply has_key_true; auto).
    congruence.
Qed.

Lemma groupby_tally l c p m :
  tally (groupby_size l) c p m
  = List.length
      (filter (fun s => cell_eqb (sel_Code s) (Some c)
                        && cell_eqb (sel_PAG s) (Some p)
                        && cell_eqb (sel_MS s) (Some m)) l).
Proof.
  induction l as [|s l IH]; simpl; [reflexivity|].
  destruct s as [[m0|] [c0|] [p0|]]; simpl; try exact IH;
    try (rewrite IH;
         repeat match goal with
                | |- context [cell_eqb ?a ?b] =>
                    let E := fresh in
                    destruct (cell_eqb a b) eqn:E;
                    [apply cell_eqb_true in E; try discriminate E|]
                end; reflexivity).
  rewrite tally_bump, IH.
  destruct (has_key c p m (mkCount c0 p0 m0 1)) eqn:K.
  - apply has_key_true in K as (K1 & K2 & K3). simpl in *. subst.
    rewrite !cell_eqb_refl. simpl. lia.
  - destruct (cell_eqb (Some c0) (Some c) && cell_eqb (Some p0) (Some p)
              && cell_eqb (Some m0) (Some m)) eqn:B; [|lia].
    apply andb_prop in B as [B B3]. apply andb_prop in B as [B1 B2].
    apply cell_eqb_true in B1, B2, B3.
    assert (K' : has_key c p m (mkCount c0 p0 m0 1) = true)
      by (apply has_key_true; simpl; repeat split; congruence).
    congruence.
Qed.

Lemma groupby_sorted l : StronglySorted key_lt (groupby_size l).
Proof.
  induction l as [|s l IH]; simpl; [constructor|].
  destruct (sel_Code s), (sel_PAG s), (sel_MS s); auto using bump_sorted.
Qed.

Lemma groupby_positive l : Forall (fun g => 0 < Count g)%nat (groupby_size l).
Proof.
  induction l as [|s l IH]; simpl; [constructor|].
  destruct (sel_Code s), (sel_PAG s), (sel_MS s); auto using bump_positive.
Qed.

Lemma selected_df_perm dept : Permutation (selected_df dept) (map select3 dept).
Proof. apply sort_values_perm. Qed.

Lemma tally_votes dept c p m :
  tally (grouped_df_gcc dept) c p m = votes dept c p m.
Proof.
  unfold grouped_df_gcc, votes. rewrite groupby_tally.
  rewrite (filter_length_perm _ _ _ (selected_df_perm dept)).
  induction dept as [|r dept IH]; simpl; [reflexivity|].
  destruct (cell_eqb (Code r) (Some c) && cell_eqb (PAG r) (Some p)
            && cell_eqb (Member_Supervisor r) (Some m)); simpl; congruence.
Qed.

(** Every row of the count table holds the number of rows of its group
    and owner, the sentinel's rows like any other owner's. *)
Lemma gcc_count dept g :
  In g (grouped_df_gcc dept) ->
  Count g = votes dept (g_Code g) (g_PAG g) (g_MS g) /\ (0 < Count g)%nat.
Proof.
  intros H. split.
  - rewrite <- tally_votes. symmetry.
    apply tally_sorted_In; [apply groupby_sorted|exact H].
  - pose proof (groupby_positive (selected_df dept)) as P.
    rewrite Forall_forall in P. now apply P.
Qed.

Lemma gcc_complete dept c p m :
  (0 < votes dept c p m)%nat ->
  exists g, In g (grouped_df_gcc dept)
            /\ g_Code g = c /\ g_PAG g = p /\ g_MS g = m.
Proof.
  rewrite <- tally_votes. unfold tally.
  destruct (filter (has_key c p m) (grouped_df_gcc dept)) as [|g t] eqn:E;
    simpl; [lia|].
  intros _. assert (H : In g (filter (has_key c p m) (grouped_df_gcc dept)))
    by (rewrite E; simpl; auto).
  apply filter_In in H as [H K]. apply has_key_true in K. eauto.
Qed.

Lemma count_le_iff a b :
  count_le a b = true <->
  String.compare (g_Code a) (g_Code b) = Lt \/
  (g_Code a = g_Code b /\
   (String.compare (g_PAG a) (g_PAG b) = Lt \/
    (g_PAG a = g_PAG b /\ (Count b <= Count a)%nat))).
Proof.
  unfold count_le.
  destruct (String.compare (g_Code a) (g_Code b)) eqn:E1.
  - apply compare_eq in E1.
    destruct (String.compare (g_PAG a) (g_PAG b)) eqn:E2.
    + apply compare_eq in E2. rewrite Nat.leb_le. intuition congruence.
    + intuition congruence.
    + split; [discriminate|]. intros [H|(_ & [H|(H & _)])]; try discriminate.
      rewrite H, compare_refl in E2. discriminate.
  - tauto.
  - split; [discriminate|]. intros [H|(H & _)]; try discriminate.
    rewrite H, compare_refl in E1. discriminate.
Qed.

Lemma count_le_total a b : count_le a b = false -> count_le b a = true.
Proof.
  intros H. apply count_le_iff. unfold count_le in H.
  destruct (String.compare (g_Code a) (g_Code b)) eqn:E1; try discriminate.
  - apply compare_eq in E1.
    destruct (String.compare (g_PAG a) (g_PAG b)) eqn:E2; try discriminate.
    + apply compare_eq in E2. apply Nat.leb_gt in H.
      right. split; [auto|]. right. split; [auto|]. lia.
    + apply compare_gt_lt in E2. auto.
  - apply compare_gt_lt in E1. auto.
Qed.

Lemma count_le_trans a b c :
  count_le a b = true -> count_le b c = true -> count_le a c = true.
Proof.
  rewrite !count_le_iff.
  intros [H1|(E1 & [H1|(E1' & H1)])] [H2|(E2 & [H2|(E2' & H2)])];
    try rewrite E1; try rewrite <- E2; try rewrite E1'; try rewrite <- E2';
    eauto 6 using compare_lt_trans.
  right. split; [congruence|]. right. split; [congruence|]. lia.
Qed.

Lemma same_group_key a b : same_group a b = true <-> group_key a = group_key b.
Proof.
  unfold same_group, group_key. rewrite andb_true_iff, !String.eqb_eq.
  split; [intros [-> ->]; reflexivity|intros E; inversion E; auto].
Qed.

Lemma gcs_In dept g :
  In g (grouped_counts_sorted dept) -> In g (grouped_df_gcc dept).
Proof.
  intros H. apply (drop_dups_In group_key _ same_group_key) in H as [H _].
  now apply (Permutation_in _ (sort_values_perm _ _)) in H.
Qed.

Lemma gcs_unique dept g g' :
  In g (grouped_counts_sorted dept) -> In g' (grouped_counts_sorted dept) ->
  g_Code g = g_Code g' -> g_PAG g = g_PAG g' -> g = g'.
Proof.
  intros H H' E1 E2.
  apply (NoDup_map_key group_key (grouped_counts_sorted dept)); auto.
  - apply (drop_dups_keys_NoDup group_key _ same_group_key).
  - unfold group_key. congruence.
Qed.

Lemma gcs_complete dept g :
  In g (grouped_df_gcc dept) ->
  exists w, In w (grouped_counts_sorted dept)
            /\ g_Code w = g_Code g /\ g_PAG w = g_PAG g.
Proof.
  intros H.
  apply (Permutation_in _ (Permutation_sym (sort_values_perm count_le _))) in H.
  destruct (drop_dups_complete group_key _ same_group_key g [] _ H) as (w & Hw & E);
    [simpl; tauto|].
  exists w. unfold group_key in E. inversion E. auto.
Qed.

(** The row kept for a group has the greatest count of the group, and
    among the rows of that count the owner that sorts first. *)
Lemma gcs_winner dept w g :
  In w (grouped_counts_sorted dept) -> In g (grouped_df_gcc dept) ->
  g_Code g = g_Code w -> g_PAG g = g_PAG w ->
  (Count g <= Count w)%nat /\
  (Count g = Count w -> g = w \/ String.compare (g_MS w) (g_MS g) = Lt).
Proof.
  intros Hw Hg E1 E2.
  pose proof (sort_values_sorted count_le count_le_total count_le_trans
                (grouped_df_gcc dept)) as Sorted.
  pose proof (sort_values_perm count_le (grouped_df_gcc dept)) as Perm.
  unfold grouped_counts_sorted in Hw.
  apply (drop_dups_split group_key _ same_group_key) in Hw
    as (l1 & l2 & ES & Hfirst).
  rewrite ES in Sorted, Perm.
  assert (Hnot1 : forall y, In y l1 -> same_group w y = false).
  { intros y Hy. destruct (same_group w y) eqn:B; [|reflexivity].
    apply same_group_key in B. exfalso. apply Hfirst. rewrite B.
    now apply in_map. }
  assert (Hsame : same_group w g = true)
    by (apply same_group_key; unfold group_key; congruence).
  apply StronglySorted_app_r in Sorted.
  apply (Permutation_in _ (Permutation_sym Perm)) in Hg.
  apply in_app_or in Hg as [Hg|[->|Hg]].
  - rewrite (Hnot1 g Hg) in Hsame. discriminate.
  - split; [lia|auto].
  - apply StronglySorted_inv in Sorted as [_ Hall].
    rewrite Forall_forall in Hall. pose proof (Hall g Hg) as Hle.
    apply count_le_iff in Hle.
    assert (Hc : (Count g <= Count w)%nat).
    { destruct Hle as [L|(_ & [L|(_ & L)])]; auto.
      - rewrite E1, compare_refl in L. discriminate.
      - rewrite E2, compare_refl in L. discriminate. }
    split; [exact Hc|]. intros Etie.
    set (P := fun y => same_group w y && Nat.eqb (Count y) (Count w)).
    assert (Stab : filter P (l1 ++ w :: l2) = filter P (grouped_df_gcc dept)).
    { rewrite <- ES. apply sort_values_filter. intros x y Px Py.
      unfold P in Px, Py. apply andb_prop in Px as [Gx Cx], Py as [Gy Cy].
      apply same_group_key in Gx, Gy. apply Nat.eqb_eq in Cx, Cy.
      unfold group_key in Gx, Gy. inversion Gx. inversion Gy.
      apply count_le_iff. right. split; [congruence|].
      right. split; [congruence|lia]. }
    rewrite filter_app in Stab.
    assert (Z : filter P l1 = []).
    { apply filter_nil_iff. intros y Hy. unfold P. now rewrite (Hnot1 y Hy). }
    rewrite Z in Stab. simpl in Stab.
    assert (Pw : P w = true).
    { unfold P. rewrite Nat.eqb_refl, andb_true_r.
      apply same_group_key. reflexivity. }
    rewrite Pw in Stab.
    assert (Hs : StronglySorted key_lt (w :: filter P l2)).
    { rewrite Stab. apply StronglySorted_filter, groupby_sorted. }
    apply StronglySorted_inv in Hs as [_ Hs]. rewrite Forall_forall in Hs.
    assert (Pg : In g (filter P l2)).
    { apply filter_In. split; [assumption|]. unfold P.
      rewrite Hsame. simpl. now apply Nat.eqb_eq. }
    apply Hs in Pg. apply key_lt_iff in Pg.
    right. destruct Pg as [L|(_ & [L|(_ & L)])]; auto.
    + rewrite E1, compare_refl in L. discriminate.
    + rewrite E2, compare_refl in L. discriminate.
Qed.

End CountFacts.

(** ** Step 3, row by row *)

Module VoteFacts.
Import Frame ListFacts FrameFacts Resolver CountFacts.

Lemma is_sentinel_true c : is_sentinel c = true <-> c = Some sentinel.
Proof. apply cell_eqb_true. Qed.

Lemma is_sentinel_false c : is_sentinel c = false <-> c <> Some sentinel.
Proof. apply cell_eqb_false. Qed.

Lemma selected_df_In dept u :
  In u (selected_df dept) <-> exists r, In r dept /\ u = select3 r.
Proof.
  split.
  - intros H. apply (Permutation_in _ (selected_df_perm dept)) in H.
    apply in_map_iff in H as (r & <- & Hr). eauto.
  - intros (r & Hr & ->).
    apply (Permutation_in _ (Permutation_sym (selected_df_perm dept))).
    now apply in_map.
Qed.

Lemma joined_df_In dept j :
  In j (joined_df dept) <->
  exists g r,
    In g (grouped_counts_sorted dept) /\ In r dept
    /\ Member_Supervisor r = Some sentinel
    /\ PAG r = Some (g_PAG g) /\ Code r = Some (g_Code g)
    /\ j = mkJoined (Some (g_Code g)) (Some (g_PAG g)) (Some (g_MS g))
                    (Count g) (Some sentinel).
Proof.
  unfold joined_df. rewrite drop_duplicates_In, in_map_iff. split.
  - intros ([g u] & <- & H). apply merge_inner_In in H as (Hg & Hu & Hm).
    unfold unspecified_df in Hu. apply filter_In in Hu as [Hu Hs].
    apply selected_df_In in Hu as (r & Hr & ->). simpl in *.
    apply is_sentinel_true in Hs. unfold on_PAG_Code in Hm. simpl in Hm.
    apply andb_prop in Hm as [M1 M2]. apply cell_eqb_true in M1, M2.
    exists g, r. rewrite Hs. auto 10.
  - intros (g & r & Hg & Hr & Hs & Hp & Hc & ->).
    exists (g, select3 r). simpl. rewrite Hs. split; [reflexivity|].
    apply merge_inner_In. split; [assumption|]. split.
    + unfold unspecified_df. apply filter_In. split.
      * apply selected_df_In. eauto.
      * simpl. now apply is_sentinel_true.
    + unfold on_PAG_Code. simpl. rewrite Hp, Hc, !cell_eqb_refl. reflexivity.
Qed.

Lemma joined_df_match_unique dept r j1 j2 :
  In j1 (joined_df dept) -> In j2 (joined_df dept) ->
  on_PAG_Code_MS r j1 = true -> on_PAG_Code_MS r j2 = true -> j1 = j2.
Proof.
  intros H1 H2 M1 M2.
  apply joined_df_In in H1 as (g1 & r1 & Hg1 & _ & _ & _ & _ & ->).
  apply joined_df_In in H2 as (g2 & r2 & Hg2 & _ & _ & _ & _ & ->).
  unfold on_PAG_Code_MS in M1, M2. simpl in M1, M2.
  apply andb_prop in M1 as [M1 _], M2 as [M2 _].
  apply andb_prop in M1 as [P1 C1], M2 as [P2 C2].
  apply cell_eqb_true in P1, C1, P2, C2.
  assert (E : g1 = g2) by (apply (gcs_unique dept); congruence).
  now subst.
Qed.

Lemma joined_df_rows dept r :
  left_rows on_PAG_Code_MS (joined_df dept) r
  = [(r, find (on_PAG_Code_MS r) (joined_df dept))].
Proof.
  apply left_rows_find.
  rewrite (filter_unique (on_PAG_Code_MS r) (joined_df dept)).
  - destruct (find (on_PAG_Code_MS r) (joined_df dept)); simpl; lia.
  - apply drop_duplicates_NoDup.
  - intros x y Hx Hy. now apply (joined_df_match_unique dept).
Qed.

(** The left merge of lines 107-112 neither adds nor drops a row: the
    output of Step 3 is its input with the owner column recomputed. *)
Lemma majority_vote_map dept :
  majority_vote dept = map (fun r => with_owner r (voted_owner dept r)) dept.
Proof.
  unfold majority_vote, df_unspecified_joined, merge_left.
  generalize (joined_df_rows dept). unfold voted_owner.
  generalize (joined_df dept) as J. intros J HJ.
  induction dept as [|r dept IH]; simpl; [reflexivity|].
  rewrite map_app, HJ, IH. reflexivity.
Qed.

Lemma with_owner_same r : with_owner r (Member_Supervisor r) = r.
Proof. destruct r; reflexivity. Qed.

(** A sentinel row with both keys present meets its group's row of the
    count table. *)
Lemma voted_owner_sentinel dept r c p :
  In r dept -> Member_Supervisor r = Some sentinel ->
  Code r = Some c -> PAG r = Some p ->
  exists w, In w (grouped_counts_sorted dept)
            /\ g_Code w = c /\ g_PAG w = p
            /\ voted_owner dept r = Some (g_MS w).
Proof.
  intros Hr Hs Hc Hp.
  assert (V : (0 < votes dept c p sentinel)%nat).
  { unfold votes. induction dept as [|x dept IH]; simpl in *; [tauto|].
    destruct Hr as [->|Hr].
    - rewrite Hc, Hp, Hs, !cell_eqb_refl. simpl. lia.
    - destruct (_ && _); simpl; auto with arith. }
  destruct (gcc_complete _ _ _ _ V) as (g & Hg & G1 & G2 & _).
  destruct (gcs_complete _ _ Hg) as (w & Hw & W1 & W2).
  set (j := mkJoined (Some (g_Code w)) (Some (g_PAG w)) (Some (g_MS w))
                     (Count w) (Some sentinel)).
  assert (Hj : In j (joined_df dept)).
  { apply joined_df_In. exists w, r. repeat split; auto; congruence. }
  assert (Mj : on_PAG_Code_MS r j = true).
  { unfold on_PAG_Code_MS, j. simpl.
    rewrite Hc, Hp, Hs, W1, W2, G1, G2, !cell_eqb_refl. reflexivity. }
  unfold voted_owner. rewrite (proj2 (is_sentinel_true _) Hs).
  destruct (find (on_PAG_Code_MS r) (joined_df dept)) as [j'|] eqn:F.
  - apply find_some in F as [Hj' Mj'].
    rewrite (joined_df_match_unique dept r j' j Hj' Hj Mj' Mj).
    exists w. simpl. repeat split; auto; congruence.
  - apply (find_none _ _ F) in Hj. congruence.
Qed.

End VoteFacts.

(** ** Step 4, row by row *)

Module LookupFacts.
Import Frame ListFacts FrameFacts Resolver VoteFacts.

Lemma master_lookup_rows b leaders :
  master_lookup b leaders = flat_map (master_rows b leaders) b.
Proof.
  unfold master_lookup, master_rows, merge_left.
  generalize (df_leaders_select b leaders) as K. intros K.
  induction b as [|r b IH]; simpl; [reflexivity|].
  now rewrite map_app, IH.
Qed.

Lemma l_PAG_key (a b : leader) :
  cell_eqb (l_PAG a) (l_PAG b) = true <-> l_PAG a = l_PAG b.
Proof. apply cell_eqb_true. Qed.

Lemma df_leaders_select_In b leaders k :
  In k (df_leaders_select b leaders) ->
  exists r l, In r b /\ Member_Supervisor r = Some sentinel
              /\ In l leaders /\ PAG r = l_PAG l
              /\ k = mkLookup (PAG r) (Code r) (l_MS l).
Proof.
  unfold df_leaders_select, df_leaders_UN. intros H.
  apply in_map_iff in H as ([r l] & <- & H).
  apply merge_inner_In in H as (Hr & Hl & Hm).
  apply filter_In in Hr as [Hr Hs]. apply is_sentinel_true in Hs.
  apply cell_eqb_true in Hm.
  apply (drop_dups_In l_PAG _ l_PAG_key) in Hl as [Hl _].
  exists r, l. simpl. auto.
Qed.

(** The rows a row of [b_test] yields differ from it in the owner only,
    and not at all when its owner is not the sentinel. *)
Lemma master_rows_In b leaders r r' :
  In r' (master_rows b leaders r) ->
  exists ok, In (r, ok) (left_rows on_PAG_Code' (df_leaders_select b leaders) r)
             /\ r' = fallback_owner (r, ok).
Proof.
  unfold master_rows. intros H. apply in_map_iff in H as ([r0 ok] & <- & H).
  pose proof (left_rows_fst _ _ _ _ H) as E. simpl in E. subst r0. eauto.
Qed.

Lemma master_rows_length b leaders r :
  List.length (master_rows b leaders r)
  = Nat.max 1 (List.length (filter (on_PAG_Code' r) (df_leaders_select b leaders))).
Proof. unfold master_rows. now rewrite length_map, left_rows_length. Qed.

Lemma master_rows_frame b leaders r r' :
  In r' (master_rows b leaders r) ->
  (exists x, r' = with_owner r x) /\
  (Member_Supervisor r <> Some sentinel -> r' = r).
Proof.
  intros H. apply master_rows_In in H as (ok & _ & ->).
  unfold fallback_owner. simpl. split; [eauto|].
  intros Hs. apply is_sentinel_false in Hs. rewrite Hs.
  apply with_owner_same.
Qed.

(** The owner a sentinel row receives is missing, or the owner of a row
    of the master table that has the row's [PAG]. *)
Lemma master_rows_owner b leaders r r' :
  In r' (master_rows b leaders r) -> Member_Supervisor r = Some sentinel ->
  Member_Supervisor r' = None \/
  exists l, In l leaders /\ l_PAG l = PAG r /\ Member_Supervisor r' = l_MS l.
Proof.
  intros H Hs. apply master_rows_In in H as (ok & Hok & ->).
  unfold fallback_owner. simpl. rewrite (proj2 (is_sentinel_true _) Hs).
  apply left_rows_snd in Hok. simpl in Hok.
  destruct ok as [k|]; simpl; [|auto].
  destruct Hok as [Hk Hm]. right.
  apply df_leaders_select_In in Hk as (r0 & l & _ & _ & Hl & Hp & ->).
  unfold on_PAG_Code' in Hm. simpl in Hm. apply andb_prop in Hm as [Hm _].
  apply cell_eqb_true in Hm. exists l. simpl. repeat split; congruence.
Qed.

Lemma master_rows_unmatched b leaders r :
  Member_Supervisor r = Some sentinel ->
  (forall l, In l leaders -> l_PAG l <> PAG r) ->
  master_rows b leaders r = [with_owner r None].
Proof.
  intros Hs Hno. unfold master_rows, left_rows.
  assert (Z : filter (on_PAG_Code' r) (df_leaders_select b leaders) = []).
  { apply filter_nil_iff. intros k Hk.
    apply df_leaders_select_In in Hk as (r0 & l & _ & _ & Hl & Hp & ->).
    unfold on_PAG_Code'. simpl.
    destruct (cell_eqb (PAG r) (PAG r0)) eqn:E; [|reflexivity].
    apply cell_eqb_true in E. exfalso. apply (Hno l Hl). congruence. }
  rewrite Z. simpl. unfold fallback_owner. simpl.
  now rewrite (proj2 (is_sentinel_true _) Hs).
Qed.

Lemma df_leaders_select_flat b leaders :
  df_leaders_select b leaders
  = flat_map (fun r =>
                map (fun l => mkLookup (PAG r) (Code r) (l_MS l))
                    (filter (fun l => cell_eqb (PAG r) (l_PAG l))
                            (df_accural_manager_code leaders)))
             (b_test1 b).
Proof.
  unfold df_leaders_select, df_leaders_UN, merge_inner.
  rewrite map_flat_map. apply flat_map_ext. intros r.
  now rewrite map_map.
Qed.

(** A sentinel row whose [PAG] the master table knows puts an entry of
    its key pair into the lookup table. *)
Lemma select_hits_one (leaders : list leader) (r r0 : row) (ld : leader) :
  PAG r0 = PAG r -> Code r0 = Code r -> In ld leaders -> l_PAG ld = PAG r ->
  (1 <= List.length
          (filter (on_PAG_Code' r)
             (map (fun l => mkLookup (PAG r0) (Code r0) (l_MS l))
                  (filter (fun l => cell_eqb (PAG r0) (l_PAG l))
                          (df_accural_manager_code leaders)))))%nat.
Proof.
  intros Hp Hc Hl Hld.
  destruct (drop_dups_complete l_PAG _ l_PAG_key ld [] leaders Hl)
    as (l' & Hl' & El'); [simpl; tauto|].
  set (k := mkLookup (PAG r0) (Code r0) (l_MS l')).
  match goal with |- (1 <= List.length ?L)%nat => assert (Hk : In k L) end.
  { apply filter_In. split.
    - apply in_map_iff. exists l'. split; [reflexivity|].
      apply filter_In. split; [exact Hl'|].
      apply cell_eqb_true. congruence.
    - unfold on_PAG_Code', k. simpl. rewrite Hp, Hc, !cell_eqb_refl. reflexivity. }
  match goal with |- (1 <= List.length ?L)%nat => destruct L end;
    [destruct Hk|simpl; lia].
Qed.

(** Two sentinel rows of one key pair with a master entry put two
    entries of that key pair into the lookup table. *)
Lemma select_hits_two b leaders r l1 r1 l2 r2 l3 ld :
  b = l1 ++ r1 :: l2 ++ r2 :: l3 ->
  Member_Supervisor r1 = Some sentinel -> Member_Supervisor r2 = Some sentinel ->
  PAG r1 = PAG r -> Code r1 = Code r -> PAG r2 = PAG r -> Code r2 = Code r ->
  In ld leaders -> l_PAG ld = PAG r ->
  (2 <= List.length (filter (on_PAG_Code' r) (df_leaders_select b leaders)))%nat.
Proof.
  intros -> S1 S2 P1 C1 P2 C2 Hl Hld.
  rewrite df_leaders_select_flat. unfold b_test1.
  rewrite filter_app. simpl. rewrite (proj2 (is_sentinel_true _) S1).
  rewrite filter_app. simpl. rewrite (proj2 (is_sentinel_true _) S2).
  apply hits_two; eapply select_hits_one; eauto.
Qed.

End LookupFacts.

(** ** The claims on the two resolvers *)

Section ResolverClaims.
Import Frame ListFacts FrameFacts Resolver CountFacts VoteFacts LookupFacts.

(** C1, as stated, fails: with two sentinel rows and one row of Alice in
    a group, the count table counts the sentinel twice, the sentinel is
    the group's row of highest count, and the two sentinel rows keep the
    sentinel instead of receiving Alice, the most frequent owner among
    the other rows. *)
Lemma sentinel_rows_are_counted :
  grouped_df_gcc outvoted_fixture
    = [mkCount "C1" "P" "Alice" 1; mkCount "C1" "P" sentinel 2]
  /\ grouped_counts_sorted outvoted_fixture = [mkCount "C1" "P" sentinel 2]
  /\ map Member_Supervisor (majority_vote outvoted_fixture)
     = [Some sentinel; Some sentinel; Some "Alice"].
Proof. repeat split; vm_compute; reflexivity. Qed.

Lemma votes_cons r dept c p m :
  votes (r :: dept) c p m
  = ((if cell_eqb (Code r) (Some c) && cell_eqb (PAG r) (Some p)
         && cell_eqb (Member_Supervisor r) (Some m) then 1 else 0)
     + votes dept c p m)%nat.
Proof.
  unfold votes. simpl. destruct (_ && _); reflexivity.
Qed.

Lemma votes_max_tie dept i r c p :
  nth_error dept i = Some r ->
  Member_Supervisor r = Some sentinel -> Code r = Some c -> PAG r = Some p ->
  exists w,
    nth_error (majority_vote dept) i = Some (with_owner r (Some w))
    /\ (forall m, votes dept c p m <= votes dept c p w)%nat
    /\ (forall m, votes dept c p m = votes dept c p w -> String.leb w m = true).
Proof.
  intros Hn Hs Hc Hp.
  destruct (voted_owner_sentinel dept r c p (nth_error_In _ _ Hn) Hs Hc Hp)
    as (w & Hw & W1 & W2 & Ew).
  exists (g_MS w). split.
  { rewrite majority_vote_map, nth_error_map, Hn. simpl. now rewrite Ew. }
  destruct (gcc_count _ _ (gcs_In _ _ Hw)) as [Cw Pw]. rewrite W1, W2 in Cw.
  assert (Hcmp : forall m, (0 < votes dept c p m)%nat ->
            (votes dept c p m <= votes dept c p (g_MS w))%nat /\
            (votes dept c p m = votes dept c p (g_MS w) ->
             String.leb (g_MS w) m = true)).
  { intros m Pm. destruct (gcc_complete _ _ _ _ Pm) as (g & Hg & G1 & G2 & G3).
    destruct (gcc_count _ _ Hg) as [Cg _]. rewrite G1, G2, G3 in Cg.
    destruct (gcs_winner dept w g Hw Hg) as [Hle Htie]; try congruence.
    rewrite <- Cw, <- Cg. split; [exact Hle|].
    intros E. unfold String.leb. destruct (Htie E) as [->|L].
    - rewrite <- G3, compare_refl. reflexivity.
    - rewrite <- G3, L. reflexivity. }
  split; intros m.
  - destruct (Nat.eq_dec (votes dept c p m) 0) as [Z|Z]; [lia|].
    apply Hcmp. lia.
  - intros E. apply Hcmp; [lia|exact E].
Qed.

(** C1, amended.  The count table is built from all rows that have both
    keys and an owner, the sentinel rows among them: its rows are the
    groups (Code, PAG, owner) that occur, each with the number of rows of
    the group, so a sentinel row counts for the sentinel and for no other
    owner.  The owner a sentinel row receives has the highest count among
    all owners of its (Code, PAG) pair, the sentinel being one of them,
    and sorts first among the owners of that count. *)
Theorem count_table_counts_every_owner :
  forall dept,
    (forall g, In g (grouped_df_gcc dept) <->
               (0 < Count g)%nat
               /\ Count g = votes dept (g_Code g) (g_PAG g) (g_MS g))
    /\ (forall i r c p,
           nth_error dept i = Some r ->
           Member_Supervisor r = Some sentinel ->
           Code r = Some c -> PAG r = Some p ->
           (0 < votes dept c p sentinel)%nat
           /\ exists w,
               nth_error (majority_vote dept) i = Some (with_owner r (Some w))
               /\ (forall m, votes dept c p m <= votes dept c p w)%nat
               /\ (forall m, votes dept c p m = votes dept c p w ->
                             String.leb w m = true)).
Proof.
  intros dept. split.
  - intros g. split.
    + intros H. destruct (gcc_count dept g H). auto.
    + intros [Hpos Hc]. rewrite Hc in Hpos.
      destruct (gcc_complete _ _ _ _ Hpos) as (g' & Hg' & E1 & E2 & E3).
      destruct (gcc_count dept g' Hg') as [Hc' _].
      rewrite E1, E2, E3, <- Hc in Hc'.
      destruct g as [gc gp gm gn], g' as [gc' gp' gm' gn']. simpl in *.
      now subst.
  - intros i r c p Hn Hs Hc Hp. split.
    + destruct (voted_owner_sentinel dept r c p (nth_error_In _ _ Hn) Hs Hc Hp)
        as (w & Hw & _).
      pose proof (nth_error_In _ _ Hn) as Hr. clear - Hr Hs Hc Hp.
      unfold votes. induction dept as [|x dept IH]; simpl in *; [tauto|].
      destruct Hr as [->|Hr].
      * rewrite Hc, Hp, Hs, !cell_eqb_refl. simpl. lia.
      * destruct (_ && _); simpl; auto with arith.
    + exact (votes_max_tie dept i r c p Hn Hs Hc Hp).
Qed.

(** C1 on the group of two sentinel rows and one row of Alice. *)
Lemma count_table_counts_every_owner_fixture :
  (forall g, In g (grouped_df_gcc outvoted_fixture) <->
             (0 < Count g)%nat
             /\ Count g = votes outvoted_fixture (g_Code g) (g_PAG g) (g_MS g))
  /\ (0 < votes outvoted_fixture "C1" "P" sentinel)%nat
  /\ exists w,
      nth_error (majority_vote outvoted_fixture) 0
      = Some (with_owner (plain_row "C1" "P" sentinel) (Some w))
      /\ (forall m, votes outvoted_fixture "C1" "P" m
                    <= votes outvoted_fixture "C1" "P" w)%nat
      /\ (forall m, votes outvoted_fixture "C1" "P" m
                    = votes outvoted_fixture "C1" "P" w ->
                    String.leb w m = true).
Proof.
  destruct (count_table_counts_every_owner outvoted_fixture) as [Htab Hrow].
  split; [exact Htab|].
  apply (Hrow 0%nat (plain_row "C1" "P" sentinel) "C1" "P"); reflexivity.
Defined.

Lemma votes_own dept i r c p m :
  nth_error dept i = Some r ->
  Code r = Some c -> PAG r = Some p -> Member_Supervisor r = Some m ->
  (0 < votes dept c p m)%nat.
Proof.
  intros Hn Hc Hp Hm. apply nth_error_In in Hn. clear i.
  induction dept as [|x dept IH]; [destruct Hn|].
  rewrite votes_cons. destruct Hn as [->|Hn].
  - rewrite Hc, Hp, Hm, !cell_eqb_refl. simpl. lia.
  - specialize (IH Hn). lia.
Qed.

Lemma leb_first w m : String.leb w m = true -> m <> w -> String.compare w m = Lt.
Proof.
  unfold String.leb. destruct (String.compare w m) eqn:C;
    try discriminate; [|reflexivity].
  apply compare_eq in C. congruence.
Qed.

Lemma leb_antisym a b : String.leb a b = true -> String.leb b a = true -> a = b.
Proof.
  intros H1 H2. destruct (string_dec a b) as [E|N]; [exact E|exfalso].
  assert (L1 : String.compare a b = Lt) by (apply leb_first; congruence).
  assert (L2 : String.compare b a = Lt) by (apply leb_first; congruence).
  apply compare_gt_lt in L2. congruence.
Qed.

(** The owner a sentinel row receives against the owner the
    specification names. *)
Lemma winner_against_peers dept c p w :
  (0 < votes dept c p sentinel)%nat ->
  (forall m, votes dept c p m <= votes dept c p w)%nat ->
  (forall m, votes dept c p m = votes dept c p w -> String.leb w m = true) ->
  (w = sentinel \/ peer_winner dept c p w)
  /\ (forall a, peer_winner dept c p a ->
         (beats_sentinel dept c p a -> w = a)
         /\ (~ beats_sentinel dept c p a -> w = sentinel)).
Proof.
  intros Hpos Hmax Htie.
  assert (Peer : w <> sentinel -> peer_winner dept c p w).
  { intros Hw. split; [exact Hw|]. split.
    - pose proof (Hmax sentinel). lia.
    - intros m _. split; [apply Hmax|apply Htie]. }
  assert (Same : forall a, peer_winner dept c p a -> w <> sentinel -> w = a).
  { intros a (_ & _ & Ha) Hw. destruct (Ha w Hw) as [Le Ti].
    pose proof (Hmax a) as Ma.
    assert (E : votes dept c p w = votes dept c p a) by lia.
    apply leb_antisym; [apply Htie; congruence|apply Ti; exact E]. }
  split.
  - destruct (string_dec w sentinel) as [E|N]; [left; exact E|right; auto].
  - intros a Ha. split.
    + intros B. apply (Same a Ha). intros ->.
      destruct B as [L|[E L]].
      * pose proof (Hmax a). lia.
      * pose proof (Htie a (eq_sym E)) as T. unfold String.leb in T.
        apply compare_gt_lt in L. now rewrite L in T.
    + intros NB. destruct (string_dec w sentinel) as [E|N]; [exact E|exfalso].
      apply NB. pose proof (Same a Ha N) as <-.
      pose proof (Hmax sentinel) as Ms.
      destruct (Nat.eq_dec (votes dept c p sentinel) (votes dept c p w))
        as [E|E]; [right|left; lia].
      split; [exact E|]. apply leb_first; [now apply Htie|congruence].
Qed.

Lemma votes_three_way m :
  votes three_way_fixture "C1" "P" m
  = ((if String.eqb "Victor" m then 1 else 0)
     + ((if String.eqb "Wendy" m then 1 else 0)
        + (if String.eqb sentinel m then 1 else 0)))%nat.
Proof.
  unfold three_way_fixture. rewrite !votes_cons.
  unfold plain_row. cbn [Code PAG Member_Supervisor].
  rewrite !cell_eqb_refl, !cell_eqb_Some. cbn [andb].
  unfold votes. cbn [filter List.length].
  destruct (String.eqb "Victor" m), (String.eqb "Wendy" m),
    (String.eqb sentinel m); reflexivity.
Qed.

(** C2, as stated, fails when the tied owners are taken among the
    owners other than the sentinel, as the specification does.  With one
    row of Victor, one of Wendy and one sentinel row in a group, Victor
    and Wendy tie for the highest count and Victor sorts first; the count
    table also holds the sentinel with one row, the sentinel text sorts
    before both names, and the sentinel row keeps the sentinel. *)
Lemma sentinel_wins_a_three_way_tie :
  peer_winner three_way_fixture "C1" "P" "Victor"
  /\ votes three_way_fixture "C1" "P" "Wendy"
     = votes three_way_fixture "C1" "P" "Victor"
  /\ grouped_counts_sorted three_way_fixture = [mkCount "C1" "P" sentinel 1]
  /\ map Member_Supervisor (majority_vote three_way_fixture)
     = [Some "Victor"; Some "Wendy"; Some sentinel].
Proof.
  split; [|repeat split; vm_compute; reflexivity].
  split; [discriminate|]. split; [vm_compute; lia|].
  intros m Hm. rewrite !votes_three_way.
  destruct (String.eqb_spec "Victor" m) as [<-|_];
    [split; [vm_compute; lia|reflexivity]|].
  destruct (String.eqb_spec "Wendy" m) as [<-|_];
    [split; [vm_compute; lia|reflexivity]|].
  destruct (String.eqb_spec sentinel m) as [E|_]; [congruence|].
  vm_compute. split; [lia|discriminate].
Qed.

(** C2, amended.  The owners that tie are taken among all owners of the
    group, the sentinel being one of them.  A sentinel row of a group
    receives an owner of highest count in its group, and among the owners
    of that count the one that sorts first; this owner is the sentinel
    itself or the most frequent of the other owners (the first in string
    order among those of the highest count), and it is the latter exactly
    when that owner has more rows than the sentinel, or as many and a
    name that sorts before the sentinel text.  On the fixture of three
    rows of Alice, three rows of Bob and one sentinel row of the code C1
    the sentinel row receives Alice. *)
Theorem majority_vote_tie_break :
  (forall dept i r c p,
      nth_error dept i = Some r ->
      Member_Supervisor r = Some sentinel -> Code r = Some c -> PAG r = Some p ->
      exists w,
        nth_error (majority_vote dept) i = Some (with_owner r (Some w))
        /\ (forall m, votes dept c p m <= votes dept c p w)%nat
        /\ (forall m, votes dept c p m = votes dept c p w -> m <> w ->
                      String.compare w m = Lt)
        /\ (w = sentinel \/ peer_winner dept c p w)
        /\ (forall a, peer_winner dept c p a ->
               (beats_sentinel dept c p a -> w = a)
               /\ (~ beats_sentinel dept c p a -> w = sentinel)))
  /\ (forall p,
         map Member_Supervisor (majority_vote (tie_fixture p))
         = [Some "Alice"; Some "Alice"; Some "Alice";
            Some "Bob"; Some "Bob"; Some "Bob"; Some "Alice"]).
Proof.
  split.
  { intros dept i r c p Hn Hs Hc Hp.
    destruct (votes_max_tie dept i r c p Hn Hs Hc Hp) as (w & Hw & Hmax & Htie).
    exists w. split; [exact Hw|]. split; [exact Hmax|]. split.
    - intros m E N. apply leb_first; [now apply Htie|exact N].
    - apply winner_against_peers; [|exact Hmax|exact Htie].
      exact (votes_own dept i r c p sentinel Hn Hc Hp Hs). }
  intros p.
  destruct (votes_max_tie (tie_fixture p) 6 (plain_row "C1" p sentinel) "C1" p)
    as (w & Hn & Hmax & Htie); try reflexivity.
  assert (V : forall m, votes (tie_fixture p) "C1" p m
                        = ((if String.eqb "Alice" m then 3 else 0)
                           + ((if String.eqb "Bob" m then 3 else 0)
                              + (if String.eqb sentinel m then 1 else 0)))%nat).
  { intros m. unfold tie_fixture. rewrite !votes_cons.
    unfold plain_row. cbn [Code PAG Member_Supervisor].
    rewrite !cell_eqb_refl, !cell_eqb_Some. cbn [andb].
    unfold votes. cbn [filter List.length].
    destruct (String.eqb "Alice" m), (String.eqb "Bob" m),
      (String.eqb sentinel m); reflexivity. }
  assert (Ew : w = "Alice").
  { pose proof (Hmax "Alice") as MA. pose proof (Htie "Alice") as TA.
    rewrite (V "Alice"), (V w) in MA, TA.
    destruct (String.eqb_spec "Alice" w) as [E|_]; [now symmetry|].
    destruct (String.eqb_spec "Bob" w) as [E|_].
    - subst w. discriminate (TA eq_refl).
    - exfalso. destruct (String.eqb sentinel w); vm_compute in MA; lia. }
  subst w.
  assert (Hs : voted_owner (tie_fixture p) (plain_row "C1" p sentinel)
               = Some "Alice").
  { rewrite majority_vote_map, nth_error_map in Hn.
    change (nth_error (tie_fixture p) 6)
      with (Some (plain_row "C1" p sentinel)) in Hn.
    simpl in Hn. now inversion Hn. }
  assert (K : forall D m, m <> sentinel ->
                voted_owner D (plain_row "C1" p m) = Some m).
  { intros D m Hm. unfold voted_owner. simpl.
    assert (F : is_sentinel (Some m) = false)
      by (apply is_sentinel_false; congruence).
    now rewrite F. }
  assert (KA : voted_owner (tie_fixture p) (plain_row "C1" p "Alice")
               = Some "Alice") by (apply K; discriminate).
  assert (KB : voted_owner (tie_fixture p) (plain_row "C1" p "Bob")
               = Some "Bob") by (apply K; discriminate).
  rewrite majority_vote_map, map_map.
  revert Hs KA KB. generalize (voted_owner (tie_fixture p)) as D.
  intros D HD KA KB.
  unfold tie_fixture. cbn [map]. cbn [with_owner Member_Supervisor].
  now rewrite HD, KA, KB.
Qed.

(** The general statement of C2 on the fixture of Victor, Wendy and the
    sentinel, where the row keeps the sentinel, Victor not having more
    rows than it. *)
Lemma majority_vote_tie_break_fixture :
  exists w,
    nth_error (majority_vote three_way_fixture) 2
    = Some (with_owner (plain_row "C1" "P" sentinel) (Some w))
    /\ (forall m, votes three_way_fixture "C1" "P" m
                  <= votes three_way_fixture "C1" "P" w)%nat
    /\ (forall m, votes three_way_fixture "C1" "P" m
                  = votes three_way_fixture "C1" "P" w ->
                  m <> w -> String.compare w m = Lt)
    /\ (w = sentinel \/ peer_winner three_way_fixture "C1" "P" w)
    /\ (forall a, peer_winner three_way_fixture "C1" "P" a ->
           (beats_sentinel three_way_fixture "C1" "P" a -> w = a)
           /\ (~ beats_sentinel three_way_fixture "C1" "P" a -> w = sentinel)).
Proof.
  apply (proj1 majority_vote_tie_break three_way_fixture 2
               (plain_row "C1" "P" sentinel) "C1" "P"); reflexivity.
Defined.

(** C7.  Step 3 returns its input rows in order with at most the owner
    changed, and a row whose owner is not the sentinel unchanged; in
    Step 4 every row of [b_test] yields at least one output row, each
    differing from it in the owner at most, and a row whose owner is not
    the sentinel only yields copies of itself. *)
Theorem resolvers_keep_resolved_owners :
  forall dept b leaders,
    Forall2 (fun r r' => (exists x, r' = with_owner r x)
                         /\ (Member_Supervisor r <> Some sentinel -> r' = r))
            dept (majority_vote dept)
    /\ master_lookup b leaders = flat_map (master_rows b leaders) b
    /\ (forall r, master_rows b leaders r <> []
                  /\ forall r', In r' (master_rows b leaders r) ->
                                (exists x, r' = with_owner r x)
                                /\ (Member_Supervisor r <> Some sentinel ->
                                    r' = r)).
Proof.
  intros dept b leaders. split; [|split].
  - rewrite majority_vote_map.
    assert (G : forall l, Forall2
                  (fun r r' => (exists x, r' = with_owner r x)
                               /\ (Member_Supervisor r <> Some sentinel -> r' = r))
                  l (map (fun r => with_owner r (voted_owner dept r)) l)).
    { induction l as [|r l IH]; simpl; constructor; [|exact IH].
      split; [eauto|]. intros Hs. unfold voted_owner.
      apply is_sentinel_false in Hs. rewrite Hs. apply with_owner_same. }
    apply G.
  - apply master_lookup_rows.
  - intros r. split.
    + intros E. pose proof (master_rows_length b leaders r) as L.
      rewrite E in L. cbn [List.length] in L. lia.
    + intros r'. apply master_rows_frame.
Qed.


(** C7 on the two fixtures of the majority vote. *)
Lemma resolvers_keep_resolved_owners_fixture :
  Forall2 (fun r r' => (exists x, r' = with_owner r x)
                       /\ (Member_Supervisor r <> Some sentinel -> r' = r))
          (tie_fixture "P") (majority_vote (tie_fixture "P"))
  /\ master_lookup (majority_vote outvoted_fixture)
                   [mkLeader (Some "P") (Some "Zed") None]
     = flat_map (master_rows (majority_vote outvoted_fixture)
                             [mkLeader (Some "P") (Some "Zed") None])
                (majority_vote outvoted_fixture)
  /\ (forall r,
         master_rows (majority_vote outvoted_fixture)
                     [mkLeader (Some "P") (Some "Zed") None] r <> []
         /\ forall r',
             In r' (master_rows (majority_vote outvoted_fixture)
                                [mkLeader (Some "P") (Some "Zed") None] r) ->
             (exists x, r' = with_owner r x)
             /\ (Member_Supervisor r <> Some sentinel -> r' = r)).
Proof.
  exact (resolvers_keep_resolved_owners
           (tie_fixture "P") (majority_vote outvoted_fixture)
           [mkLeader (Some "P") (Some "Zed") None]).
Defined.

(** C3, as stated, fails: a master row whose owner is the sentinel hands
    the sentinel to the sentinel row of its [PAG]. *)
Lemma master_can_supply_the_sentinel :
  exists r,
    In r (process_cleaned_excel
            [plain_row "C1" "P" sentinel]
            [mkLeader (Some "P") (Some sentinel) (Some "D")])
    /\ Member_Supervisor r = Some sentinel.
Proof.
  exists (plain_row "C1" "P" sentinel). split; [|reflexivity].
  vm_compute. left. reflexivity.
Qed.

(** C3, amended.  When no row of the master table has the sentinel as
    its trimmed owner, no row of [df_leaders_final] has the sentinel as
    owner; and, whatever the master table, a row still holding the
    sentinel after Step 3 whose [PAG] the master table does not contain
    yields one row, with the owner missing, and this row is in
    [df_leaders_final]. *)
Theorem cascade_leaves_no_sentinel :
  forall df master,
    ((forall l, In l master -> str_strip (l_MS l) <> Some sentinel) ->
     forall r', In r' (process_cleaned_excel df master) ->
                Member_Supervisor r' <> Some sentinel)
    /\ (forall r,
           In r (majority_vote (filtered_dept df)) ->
           Member_Supervisor r = Some sentinel ->
           (forall l, In l (df_leaders master) -> l_PAG l <> PAG r) ->
           master_rows (majority_vote (filtered_dept df)) (df_leaders master) r
           = [with_owner r None]
           /\ In (with_owner r None) (process_cleaned_excel df master)).
Proof.
  intros df master. split.
  - intros Hm r' H. unfold process_cleaned_excel in H.
    rewrite master_lookup_rows in H. apply in_flat_map in H as (r & Hr & H).
    destruct (cell_eq_dec (Member_Supervisor r) (Some sentinel)) as [Hs|Hs].
    + destruct (master_rows_owner _ _ _ _ H Hs) as [E|(l & Hl & _ & E)];
        rewrite E; [discriminate|].
      unfold df_leaders in Hl. apply in_map_iff in Hl as (l0 & <- & Hl0).
      simpl. now apply Hm.
    + apply master_rows_frame in H as [_ H]. now rewrite (H Hs).
  - intros r Hr Hs Hno.
    assert (E : master_rows (majority_vote (filtered_dept df))
                            (df_leaders master) r = [with_owner r None])
      by now apply master_rows_unmatched.
    split; [exact E|].
    unfold process_cleaned_excel. rewrite master_lookup_rows.
    apply in_flat_map. exists r. split; [exact Hr|].
    rewrite E. simpl. auto.
Qed.

(** C3 on a sentinel row whose [PAG] the master table does not hold. *)
Lemma cascade_leaves_no_sentinel_witness :
  (forall r',
      In r' (process_cleaned_excel
               [plain_row "C1" "P" sentinel; plain_row "C2" "Q" "Alice"]
               [mkLeader (Some "q") (Some " Zed ") None]) ->
      Member_Supervisor r' <> Some sentinel)
  /\ (forall r,
         In r (majority_vote
                 (filtered_dept
                    [plain_row "C1" "P" sentinel; plain_row "C2" "Q" "Alice"])) ->
         Member_Supervisor r = Some sentinel ->
         (forall l, In l (df_leaders [mkLeader (Some "q") (Some " Zed ") None]) ->
                    l_PAG l <> PAG r) ->
         master_rows
           (majority_vote
              (filtered_dept
                 [plain_row "C1" "P" sentinel; plain_row "C2" "Q" "Alice"]))
           (df_leaders [mkLeader (Some "q") (Some " Zed ") None]) r
         = [with_owner r None]
         /\ In (with_owner r None)
               (process_cleaned_excel
                  [plain_row "C1" "P" sentinel; plain_row "C2" "Q" "Alice"]
                  [mkLeader (Some "q") (Some " Zed ") None])).
Proof.
  destruct (cascade_leaves_no_sentinel
              [plain_row "C1" "P" sentinel; plain_row "C2" "Q" "Alice"]
              [mkLeader (Some "q") (Some " Zed ") None]) as [HA HB].
  split; [|exact HB].
  apply HA. intros l [<-|[]]. vm_compute. discriminate.
Defined.

(** C10.  When two rows of [b_test] at different places hold the
    sentinel, share their [PAG] and [Code], and the master table has a
    row of that [PAG], Step 4 returns more rows than it receives: every
    row of [b_test] with that key pair yields at least two output rows,
    each the row itself up to the owner. *)
Theorem master_lookup_fans_out :
  forall b leaders i j r1 r2 ld,
    i <> j -> nth_error b i = Some r1 -> nth_error b j = Some r2 ->
    Member_Supervisor r1 = Some sentinel ->
    Member_Supervisor r2 = Some sentinel ->
    PAG r2 = PAG r1 -> Code r2 = Code r1 ->
    In ld leaders -> l_PAG ld = PAG r1 ->
    (List.length b < List.length (master_lookup b leaders))%nat
    /\ (forall r, In r b -> PAG r = PAG r1 -> Code r = Code r1 ->
                  (2 <= List.length (master_rows b leaders r))%nat
                  /\ forall r', In r' (master_rows b leaders r) ->
                                exists x, r' = with_owner r x).
Proof.
  intros b leaders i j r1 r2 ld Hij Hi Hj S1 S2 HP HC Hl Hld.
  assert (Hrows : forall r, In r b -> PAG r = PAG r1 -> Code r = Code r1 ->
                    (2 <= List.length (master_rows b leaders r))%nat).
  { intros r _ Pr Cr. rewrite master_rows_length.
    assert (Hsplit : exists l1 x l2 y l3,
               b = l1 ++ x :: l2 ++ y :: l3
               /\ Member_Supervisor x = Some sentinel
               /\ Member_Supervisor y = Some sentinel
               /\ PAG x = PAG r /\ Code x = Code r
               /\ PAG y = PAG r /\ Code y = Code r).
    { destruct (Nat.lt_total i j) as [L|[E|L]]; [|contradiction|].
      - destruct (two_positions b i j r1 r2 L Hi Hj) as (l1 & l2 & l3 & E).
        exists l1, r1, l2, r2, l3. repeat split; congruence.
      - destruct (two_positions b j i r2 r1 L Hj Hi) as (l1 & l2 & l3 & E).
        exists l1, r2, l2, r1, l3. repeat split; congruence. }
    destruct Hsplit as (l1 & x & l2 & y & l3 & E & Sx & Sy & Px & Cx & Py & Cy).
    assert (Hld' : l_PAG ld = PAG r) by congruence.
    pose proof (select_hits_two b leaders r l1 x l2 y l3 ld
                  E Sx Sy Px Cx Py Cy Hl Hld').
    lia. }
  split.
  - rewrite master_lookup_rows, length_flat_map.
    apply list_sum_grows with r1.
    + intros y. rewrite master_rows_length. lia.
    + eapply nth_error_In; eassumption.
    + apply Hrows; [eapply nth_error_In; eassumption|reflexivity|reflexivity].
  - intros r Hr Pr Cr. split; [now apply Hrows|].
    intros r' H. now apply master_rows_frame in H.
Qed.

(** C10 on two equal sentinel rows. *)
Lemma master_lookup_fans_out_witness :
  (List.length [plain_row "C1" "P" sentinel; plain_row "C1" "P" sentinel]
   < List.length
       (master_lookup [plain_row "C1" "P" sentinel; plain_row "C1" "P" sentinel]
                      [mkLeader (Some "P") (Some "Zed") None]))%nat
  /\ (forall r,
         In r [plain_row "C1" "P" sentinel; plain_row "C1" "P" sentinel] ->
         PAG r = PAG (plain_row "C1" "P" sentinel) ->
         Code r = Code (plain_row "C1" "P" sentinel) ->
         (2 <= List.length
                 (master_rows
                    [plain_row "C1" "P" sentinel; plain_row "C1" "P" sentinel]
                    [mkLeader (Some "P") (Some "Zed") None] r))%nat
         /\ forall r',
             In r' (master_rows
                      [plain_row "C1" "P" sentinel; plain_row "C1" "P" sentinel]
                      [mkLeader (Some "P") (Some "Zed") None] r) ->
             exists x, r' = with_owner r x).
Proof.
  apply (master_lookup_fans_out
           [plain_row "C1" "P" sentinel; plain_row "C1" "P" sentinel]
           [mkLeader (Some "P") (Some "Zed") None]
           0 1 (plain_row "C1" "P" sentinel) (plain_row "C1" "P" sentinel)
           (mkLeader (Some "P") (Some "Zed") None));
    try reflexivity; [lia|simpl; auto].
Defined.

End ResolverClaims.

(** ** Downstream propagation *)

Module PropagatorFacts.
Import Frame ListFacts FrameFacts Resolver Director Propagator.

Local Open Scope string_scope.

Lemma append_nil_r s : s ++ "" = s.
Proof. induction s as [|a s IH]; simpl; [reflexivity|now rewrite IH]. Qed.

Lemma append_assoc s t u : (s ++ t) ++ u = s ++ t ++ u.
Proof. induction s as [|a s IH]; simpl; [reflexivity|now rewrite IH]. Qed.

Lemma no_space_snoc w a :
  Text.no_space (w ++ String a "") = Text.no_space w && negb (Text.isspace a).
Proof.
  induction w as [|b w IH]; simpl.
  - now rewrite andb_true_r.
  - rewrite IH. now rewrite andb_assoc.
Qed.

Lemma snoc_not_empty w a : w ++ String a "" <> "".
Proof. destruct w; discriminate. Qed.

Local Close Scope string_scope.

Lemma last_item_cons x l :
  last_item (x :: l)
  = Some (match last_item l with Some t => t | None => x end).
Proof.
  unfold last_item. f_equal. destruct l as [|y l]; [reflexivity|].
  apply last_cons_default.
Qed.

(** The end of a string that is the empty string or ends in white
    space stays so when a white-space character is put in front. *)
Lemma space_before (a : ascii) (pre : string) :
  Text.isspace a = true ->
  (pre = EmptyString
   \/ exists pre' b, pre = (pre' ++ String b EmptyString)%string
                     /\ Text.isspace b = true) ->
  forall w : string,
  exists pre' b, (w ++ String a pre)%string = (pre' ++ String b EmptyString)%string
                 /\ Text.isspace b = true.
Proof.
  intros Ha [->|(pre' & b & -> & Hb)] w.
  - exists w, a. auto.
  - exists (w ++ String a pre')%string, b. split; [|exact Hb].
    now rewrite append_assoc.
Qed.

Lemma all_space_cons a s :
  Text.isspace a = true -> Text.all_space s = true ->
  Text.all_space (String a s) = true.
Proof. intros Ha Hs. cbn [Text.all_space]. now rewrite Ha, Hs. Qed.

Lemma split_from_last s : forall word,
  Text.no_space word = true ->
  match last_item (Text.split_from word s) with
  | None => word = EmptyString /\ Text.all_space s = true
  | Some t => last_token (word ++ s) t
  end.
Proof.
  induction s as [|a s IH]; intros word Hw.
  - cbn [Text.split_from]. destruct word as [|b word]; cbn [last_item last].
    + auto.
    + split; [discriminate|]. split; [exact Hw|].
      exists EmptyString, EmptyString. cbn [String.append].
      rewrite !append_nil_r. auto.
  - cbn [Text.split_from]. destruct (Text.isspace a) eqn:Ha.
    + specialize (IH EmptyString eq_refl). cbn [String.append] in IH.
      destruct word as [|b word].
      * cbn [String.append].
        destruct (last_item (Text.split_from EmptyString s)) as [t|].
        -- destruct IH as (T1 & T2 & pre & suf & E & S & P).
           split; [exact T1|]. split; [exact T2|].
           exists (String a pre), suf. cbn [String.append]. rewrite E.
           split; [reflexivity|]. split; [exact S|]. right.
           destruct (space_before a pre Ha P EmptyString) as (p' & b & Ep & Hb).
           cbn [String.append] in Ep. eauto.
        -- destruct IH as [_ S]. split; [reflexivity|].
           now apply all_space_cons.
      * rewrite last_item_cons.
        destruct (last_item (Text.split_from EmptyString s)) as [t|].
        -- destruct IH as (T1 & T2 & pre & suf & E & S & P).
           split; [exact T1|]. split; [exact T2|].
           exists (String b word ++ String a pre)%string, suf.
           rewrite E, append_assoc. cbn [String.append].
           split; [reflexivity|]. split; [exact S|]. right.
           destruct (space_before a pre Ha P (String b word)) as (p' & c & Ep & Hc).
           cbn [String.append] in Ep. eauto.
        -- destruct IH as [_ S]. split; [discriminate|]. split; [exact Hw|].
           exists EmptyString, (String a s). cbn [String.append].
           split; [reflexivity|]. split; [|auto]. now apply all_space_cons.
    + specialize (IH (word ++ String a EmptyString)%string).
      rewrite no_space_snoc, Hw, Ha in IH. specialize (IH eq_refl).
      destruct (last_item (Text.split_from (word ++ String a EmptyString) s))
        as [t|].
      * rewrite append_assoc in IH. exact IH.
      * destruct IH as [E _]. now apply snoc_not_empty in E.
Qed.

(** Line 260 takes the last white-space-delimited token of the name. *)
Lemma member_id_last_token s :
  match member_id (Some s) with
  | Some t => last_token s t
  | None => Text.all_space s = true
  end.
Proof.
  unfold member_id, Text.split.
  pose proof (split_from_last s EmptyString eq_refl) as H. simpl in H.
  destruct (last_item (Text.split_from EmptyString s)); tauto.
Qed.

Lemma same_pair_key a b : same_pair a b = true <-> pair_key a = pair_key b.
Proof.
  unfold same_pair, pair_key. rewrite andb_true_iff, !cell_eqb_true.
  split; [intros [-> ->]; reflexivity|intros E; inversion E; auto].
Qed.

Lemma on_own_pair_key k c : on_own_pair k c = true <-> pair_key c = k.
Proof.
  unfold on_own_pair, pair_key. rewrite andb_true_iff, !cell_eqb_true.
  destruct k as [a b]. simpl.
  split; [intros [-> ->]; reflexivity|intros E; inversion E; auto].
Qed.

Lemma on_own_pair_compat k a b :
  pair_key a = pair_key b -> on_own_pair k a = on_own_pair k b.
Proof.
  unfold on_own_pair, pair_key. intros E. inversion E as [[E1 E2]].
  now rewrite E1, E2.
Qed.

Lemma merge_left_unique {A B : Type} (m : A -> B -> bool) L R :
  (forall a, In a L -> (List.length (filter (m a) R) <= 1)%nat) ->
  merge_left m L R = map (fun a => (a, find (m a) R)) L.
Proof.
  unfold merge_left. induction L as [|a L IH]; intros H; simpl; [reflexivity|].
  rewrite left_rows_find by (apply H; simpl; auto).
  simpl. f_equal. apply IH. intros b Hb. apply H. now right.
Qed.

Section Join.
Variable same_Project : cell -> cell -> bool.

(** The join of line 265 looks at the key cells of a roster row only. *)
Lemma on_pair_compat k a b :
  pair_key a = pair_key b -> on_pair same_Project k a = on_pair same_Project k b.
Proof.
  unfold on_pair, pair_key. intros E. inversion E as [[E1 E2]].
  now rewrite E1, E2.
Qed.

Lemma on_pair_true k c :
  on_pair same_Project k c = true <->
  fst k = c_MEMBER_ID c /\ same_Project (snd k) (c_Project c) = true.
Proof. unfold on_pair. now rewrite andb_true_iff, cell_eqb_true. Qed.

(** The first row of [df_accural_manager_code] for a pair of the
    accrual rows carries the first roster row that the pair meets. *)
Lemma code_first (select : list (cell * cell)) (R : list code_row) k :
  In k select ->
  find (on_own_pair k)
       (map (fun kc : (cell * cell) * option code_row =>
               mkCode (fst (fst kc)) (snd (fst kc))
                      (right_col c_MS (snd kc)) (right_col c_DIRECTOR (snd kc)))
            (merge_left (on_pair same_Project) select R))
  = Some (match find (on_pair same_Project k) R with
          | Some c => mkCode (fst k) (snd k) (c_MS c) (c_DIRECTOR c)
          | None => mkCode (fst k) (snd k) None None
          end).
Proof.
  assert (Self : forall x y, on_own_pair k (mkCode (fst k) (snd k) x y) = true).
  { intros x y. apply on_own_pair_key. destruct k; reflexivity. }
  unfold merge_left. induction select as [|k' select IH]; simpl; [tauto|].
  intros Hk. rewrite map_app.
  destruct (pair_eq_dec k k') as [<-|N].
  - clear IH Hk. unfold left_rows.
    rewrite (find_hd_filter (on_pair same_Project k) R).
    destruct (filter (on_pair same_Project k) R) as [|c bs]; simpl;
      now rewrite Self.
  - rewrite find_app_skip.
    + apply IH. destruct Hk as [->|Hk]; [contradiction|exact Hk].
    + intros x Hx. apply in_map_iff in Hx as ([k0 oc] & <- & Hx).
      pose proof (left_rows_fst _ _ _ _ Hx) as E. simpl in E. subst k0.
      simpl. destruct (on_own_pair k _) eqn:O; [|reflexivity].
      apply on_own_pair_key in O. unfold pair_key in O. simpl in O.
      destruct k'. simpl in O. congruence.
Qed.

Lemma code2_find df_accrual dmap tm :
  In tm (filtered_df_accrual df_accrual) ->
  find (on_own_pair (snd tm, Project (fst tm)))
       (df_accural_manager_code2 same_Project df_accrual dmap)
  = Some (match find (on_pair same_Project (snd tm, Project (fst tm)))
                     (df_leaders_CODE dmap) with
          | Some c => mkCode (snd tm) (Project (fst tm)) (c_MS c) (c_DIRECTOR c)
          | None => mkCode (snd tm) (Project (fst tm)) None None
          end).
Proof.
  intros Htm. unfold df_accural_manager_code2.
  unfold drop_duplicates.
  rewrite (drop_dups_find pair_key same_pair same_pair_key);
    [|apply on_own_pair_compat|intros y []].
  unfold df_accural_manager_code. rewrite code_first.
  - unfold df_leaders_CODE_select. now rewrite drop_duplicates_find.
  - unfold filtered_df_select. apply drop_duplicates_In.
    apply in_map_iff. exists tm. auto.
Qed.

Lemma code2_unique df_accrual dmap k :
  (List.length (filter (on_own_pair k)
                       (df_accural_manager_code2 same_Project df_accrual dmap))
   <= 1)%nat.
Proof.
  pose proof (drop_dups_keys_NoDup pair_key same_pair same_pair_key []
                (df_accural_manager_code same_Project df_accrual dmap)) as N.
  fold (drop_duplicates same_pair
          (df_accural_manager_code same_Project df_accrual dmap)) in N.
  fold (df_accural_manager_code2 same_Project df_accrual dmap) in N.
  rewrite (filter_unique (on_own_pair k)).
  - destruct (find _ _); simpl; lia.
  - eapply NoDup_map_inv; eassumption.
  - intros x y Hx Hy Ox Oy. apply on_own_pair_key in Ox, Oy.
    apply (NoDup_map_key pair_key _ x y N Hx Hy). congruence.
Qed.

(** Lines 256-279 are the join to the roster deduplicated on the pair. *)
Lemma final_is_spec df_accrual dmap :
  df_accural_final same_Project df_accrual dmap
  = propagate_spec same_Project df_accrual dmap.
Proof.
  unfold df_accural_final, propagate_spec.
  rewrite merge_left_unique by (intros a _; apply code2_unique).
  rewrite map_map. apply map_ext_in. intros tm Htm. cbn [fst snd].
  change (fun c : code_row => on_own_pair (snd tm, Project (fst tm)) c)
    with (on_own_pair (snd tm, Project (fst tm))).
  rewrite (code2_find df_accrual dmap tm Htm).
  unfold roster_first, drop_duplicates.
  rewrite (drop_dups_find pair_key same_pair same_pair_key);
    [|apply on_pair_compat|intros y []].
  destruct (find _ (df_leaders_CODE dmap)); reflexivity.
Qed.

(** The accrual rows pass through the join once each. *)
Lemma final_keeps_rows df_accrual dmap :
  map (fun a => (a_trx a, MEMBER_ID a))
      (df_accural_final same_Project df_accrual dmap)
  = filtered_df_accrual df_accrual.
Proof.
  rewrite final_is_spec. unfold propagate_spec.
  rewrite map_map. rewrite <- (map_id (filtered_df_accrual df_accrual)) at 2.
  apply map_ext. intros [t m]. simpl.
  destruct (find _ (roster_first dmap)); reflexivity.
Qed.

End Join.

End PropagatorFacts.

(** ** The claim on the downstream propagation *)

Section PropagatorClaims.
Import Frame FrameFacts Resolver Director Propagator PropagatorFacts.

(** C4, as stated, fails: the second key of the join is the roster's
    [Code], not the category [PAG].  Of two roster rows of one member and
    one [PAG] the roster deduplicated on (member id, [PAG]) keeps the
    first, the row of Alice; the accrual row of that member on the
    project C2 receives Bob, the owner of the second. *)
Lemma accrual_join_ignores_category_key :
  map (fun m => Member_Supervisor (m_row m))
      (roster_first_by_PAG two_codes_roster) = [Some "Alice"]
  /\ map (fun a => (a_MS a, a_DIRECTOR a))
         (df_accural_final cell_eqb second_code_accrual two_codes_roster)
     = [(Some "Bob", Some "D2")].
Proof. split; vm_compute; reflexivity. Qed.

(** C4, amended.  The roster's member id is the last
    white-space-delimited token of its name-and-id field (missing when
    the field is missing or holds white space only).  However [pd.merge]
    compares a [Project] of the accrual sheet with a [Code] of the roster,
    the rows returned are the filtered accrual rows, in order, each with
    the owner and the director of the first row of the roster
    deduplicated on (member id, [Code]) that has its member id and meets
    its [Project], and with both missing when the roster has no such row.
    The [PAG] takes no part: two rosters with the same member ids, codes,
    owners and directors give the same rows. *)
Theorem accrual_join_takes_first_roster_row :
  forall same_Project,
    member_id None = None
    /\ (forall s, match member_id (Some s) with
                  | Some t => last_token s t
                  | None => Text.all_space s = true
                  end)
    /\ (forall df_accrual dmap,
           df_accural_final same_Project df_accrual dmap
           = propagate_spec same_Project df_accrual dmap)
    /\ (forall df_accrual dmap a,
           In a (df_accural_final same_Project df_accrual dmap) ->
           (forall m, In m dmap ->
                      ~ (member_id (Member_Name_ID (m_row m)) = MEMBER_ID a
                         /\ same_Project (Project (a_trx a)) (Code (m_row m))
                            = true)) ->
           a_MS a = None /\ a_DIRECTOR a = None)
    /\ (forall df_accrual dmap dmap',
           df_leaders_CODE dmap = df_leaders_CODE dmap' ->
           df_accural_final same_Project df_accrual dmap
           = df_accural_final same_Project df_accrual dmap').
Proof.
  intros same_Project.
  split; [reflexivity|]. split; [exact member_id_last_token|].
  split; [apply final_is_spec|]. split.
  - intros df_accrual dmap a Ha Hno. rewrite final_is_spec in Ha.
    unfold propagate_spec in Ha. apply in_map_iff in Ha as (tm & <- & _).
    destruct (find _ (roster_first dmap)) as [c|] eqn:F; [|simpl; auto].
    exfalso. apply find_some in F as [Hc Oc].
    unfold roster_first in Hc.
    apply (drop_dups_In pair_key same_pair same_pair_key) in Hc as [Hc _].
    unfold df_leaders_CODE in Hc. apply in_map_iff in Hc as (m & <- & Hm).
    apply on_pair_true in Oc. simpl in Oc.
    apply (Hno m Hm). simpl. destruct Oc as [-> Oc]. auto.
  - intros df_accrual dmap dmap' E. rewrite !final_is_spec.
    unfold propagate_spec, roster_first. now rewrite E.
Qed.

(** C4 on two accrual rows and a roster with two rows of one pair, the
    projects being text. *)
Lemma accrual_join_fixture :
  last_token "John Smith 123" "123"
  /\ df_accural_final cell_eqb accrual_fixture director_map_fixture
     = propagate_spec cell_eqb accrual_fixture director_map_fixture
  /\ map (fun a => (a_MS a, a_DIRECTOR a))
         (df_accural_final cell_eqb accrual_fixture director_map_fixture)
     = [(Some "Alice", Some "D1"); (None, None)].
Proof.
  destruct (accrual_join_takes_first_roster_row cell_eqb)
    as (_ & Htok & Hspec & _).
  split; [exact (Htok "John Smith 123")|].
  split; [apply Hspec|].
  rewrite Hspec. vm_compute. reflexivity.
Defined.

(** With a comparison by value the accrual row on the integer project
    100 meets the roster row whose code is the float 100.0, and takes its
    owner and director. *)
Lemma integer_project_meets_float_code :
  map (fun a => (a_MS a, a_DIRECTOR a))
      (df_accural_final by_value integer_project float_code_roster)
  = [(Some "Carol", Some "D3")].
Proof. rewrite final_is_spec. vm_compute. reflexivity. Qed.

End PropagatorClaims.

(** ** Director derivation *)

Module DirectorFacts.
Import Frame ListFacts FrameFacts Resolver Director.

Lemma on_PAG_MS_true r e :
  on_PAG_MS r e = true <-> PAG r = e_PAG e /\ Member_Supervisor r = e_MS e.
Proof. unfold on_PAG_MS. now rewrite andb_true_iff, !cell_eqb_true. Qed.

Section Rerun.
Variable reread : cell -> cell.

Lemma df_manager_director_In df_edited e :
  In e (df_manager_director reread df_edited) <->
  exists e0, In e0 df_edited
             /\ e = mkRoster (reread (e_PAG e0)) (reread (e_MS e0))
                             (reread (e_DIRECTOR e0)).
Proof.
  unfold df_manager_director. rewrite drop_duplicates_In, in_map_iff.
  split; intros (e0 & H1 & H2); exists e0; auto.
Qed.

(** A row of [df_director_map]: a row of [df_leaders_final] with the
    director of a roster row of its keys, or with none when the roster
    has no such row. *)
Lemma df_director_map_In df_edited lf d :
  In d (df_director_map reread df_edited lf) <->
  In (m_row d) lf /\
  ((exists e, In e (df_manager_director reread df_edited)
              /\ on_PAG_MS (m_row d) e = true
              /\ m_DIRECTOR d = e_DIRECTOR e)
   \/ ((forall e, In e (df_manager_director reread df_edited) ->
                  on_PAG_MS (m_row d) e = false)
       /\ m_DIRECTOR d = None)).
Proof.
  unfold df_director_map. rewrite drop_duplicates_In, in_map_iff. split.
  - intros ([r oe] & <- & H). apply merge_left_In in H as (Hr & H).
    apply left_rows_snd in H. simpl in *. split; [exact Hr|].
    destruct oe as [e|]; simpl; [left; exists e; tauto|right; auto].
  - intros (Hr & H). destruct d as [r x]. simpl in *.
    destruct H as [(e & He & Hm & ->)|(Hno & ->)].
    + exists (r, Some e). split; [reflexivity|].
      apply merge_left_In. split; [exact Hr|].
      unfold left_rows.
      assert (Hin : In e (filter (on_PAG_MS r) (df_manager_director reread df_edited)))
        by (apply filter_In; auto).
      destruct (filter (on_PAG_MS r) (df_manager_director reread df_edited));
        [destruct Hin|].
      now apply (in_map (fun b => (r, Some b))).
    + exists (r, None). split; [reflexivity|].
      apply merge_left_In. split; [exact Hr|].
      unfold left_rows.
      rewrite (proj2 (filter_nil_iff _ _) Hno). simpl. auto.
Qed.

Lemma df_director_map_covers df_edited lf r :
  In r lf -> exists x, In (mkMapped r x) (df_director_map reread df_edited lf).
Proof.
  intros Hr.
  destruct (filter (on_PAG_MS r) (df_manager_director reread df_edited))
    as [|e t] eqn:F.
  - exists None. apply df_director_map_In. simpl. split; [exact Hr|].
    right. split; [|reflexivity]. now apply filter_nil_iff.
  - exists (e_DIRECTOR e). apply df_director_map_In. simpl.
    split; [exact Hr|]. left. exists e.
    assert (Hin : In e (filter (on_PAG_MS r) (df_manager_director reread df_edited)))
      by (rewrite F; simpl; auto).
    apply filter_In in Hin. tauto.
Qed.

Hypothesis reread_idem : forall c, reread (reread c) = reread c.
Hypothesis reread_missing : reread None = None.



End Rerun.

End DirectorFacts.

(** ** The claim on the director derivation *)

Section DirectorClaims.
Import Frame FrameFacts Resolver Director DirectorFacts.




End DirectorClaims.

(** * Further properties of the code *)

(** ** Trimming and upper-casing *)

Module TextFacts.
Import Shape.

Lemma isspace_upper_char a : Text.isspace (Text.upper_char a) = Text.isspace a.
Proof. destruct a as [[] [] [] [] [] [] [] []]; reflexivity. Qed.

Lemma upper_char_idem a :
  Text.upper_char (Text.upper_char a) = Text.upper_char a.
Proof. destruct a as [[] [] [] [] [] [] [] []]; reflexivity. Qed.

Lemma upper_idem s : Text.upper (Text.upper s) = Text.upper s.
Proof.
  induction s as [|a s IH]; simpl; [reflexivity|].
  now rewrite upper_char_idem, IH.
Qed.

Lemma lstrip_upper s : Text.lstrip (Text.upper s) = Text.upper (Text.lstrip s).
Proof.
  induction s as [|a s IH]; [reflexivity|].
  cbn [Text.upper Text.lstrip]. rewrite isspace_upper_char.
  destruct (Text.isspace a); [exact IH|reflexivity].
Qed.

Lemma rstrip_upper s : Text.rstrip (Text.upper s) = Text.upper (Text.rstrip s).
Proof.
  induction s as [|a s IH]; [reflexivity|].
  cbn [Text.upper Text.rstrip]. rewrite IH, isspace_upper_char.
  destruct (Text.rstrip s); cbn [Text.upper]; [|reflexivity].
  destruct (Text.isspace a); reflexivity.
Qed.

Lemma strip_upper s : Text.strip (Text.upper s) = Text.upper (Text.strip s).
Proof. unfold Text.strip. now rewrite lstrip_upper, rstrip_upper. Qed.

Lemma rstrip_idem s : Text.rstrip (Text.rstrip s) = Text.rstrip s.
Proof.
  induction s as [|a s IH]; [reflexivity|].
  cbn [Text.rstrip]. destruct (Text.rstrip s) as [|b u] eqn:E.
  - destruct (Text.isspace a) eqn:Ha; [reflexivity|].
    cbn [Text.rstrip]. now rewrite Ha.
  - cbn [Text.rstrip]. cbn [Text.rstrip] in IH.
    destruct (Text.rstrip u) as [|c v] eqn:Eu.
    + destruct (Text.isspace b) eqn:Hb; [discriminate|].
      now rewrite IH.
    + now rewrite IH.
Qed.

Lemma lstrip_starts_clean s : starts_clean (Text.lstrip s) = true.
Proof.
  induction s as [|a s IH]; [reflexivity|].
  cbn [Text.lstrip]. destruct (Text.isspace a) eqn:Ha; [exact IH|].
  cbn [starts_clean]. now rewrite Ha.
Qed.

Lemma lstrip_clean s : starts_clean s = true -> Text.lstrip s = s.
Proof.
  destruct s as [|a s]; [reflexivity|].
  cbn [starts_clean Text.lstrip]. now destruct (Text.isspace a).
Qed.

Lemma rstrip_starts_clean s :
  starts_clean s = true -> starts_clean (Text.rstrip s) = true.
Proof.
  destruct s as [|a s]; [reflexivity|].
  cbn [starts_clean Text.rstrip]. intros Ha.
  destruct (Text.rstrip s); cbn [starts_clean]; [|exact Ha].
  destruct (Text.isspace a) eqn:E; [discriminate|].
  cbn [starts_clean]. now rewrite E.
Qed.

Lemma strip_idem s : Text.strip (Text.strip s) = Text.strip s.
Proof.
  unfold Text.strip.
  rewrite (lstrip_clean (Text.rstrip (Text.lstrip s)))
    by apply rstrip_starts_clean, lstrip_starts_clean.
  apply rstrip_idem.
Qed.

End TextFacts.

(** ** The normaliser: sheet selection and the header-only sheet *)

Section NormalizerExtras.
Import ListFacts Normalizer NormalizerFacts.

Lemma max_rows_first best items :
  (max_rows best items = best
   /\ forall y, In y items -> (List.length (snd y) <= List.length (snd best))%nat)
  \/ exists l1 x l2,
      items = l1 ++ x :: l2 /\ max_rows best items = x
      /\ (List.length (snd best) < List.length (snd x))%nat
      /\ (forall y, In y l1 -> (List.length (snd y) < List.length (snd x))%nat)
      /\ (forall y, In y l2 -> (List.length (snd y) <= List.length (snd x))%nat).
Proof.
  revert best. induction items as [|y t IH]; intros best; simpl.
  - left. split; [reflexivity|]. intros y [].
  - destruct (Nat.ltb_spec (List.length (snd best)) (List.length (snd y)))
      as [L|L].
    + right. destruct (IH y) as [[E H]|(l1 & x & l2 & -> & E & Lx & H1 & H2)].
      * exists [], y, t. simpl. repeat split; auto. intros z [].
      * exists (y :: l1), x, l2. simpl. repeat split; auto; try lia.
        intros z [<-|Hz]; auto.
    + destruct (IH best) as [[E H]|(l1 & x & l2 & -> & E & Lx & H1 & H2)].
      * left. split; [exact E|]. intros z [<-|Hz]; auto.
      * right. exists (y :: l1), x, l2. simpl. repeat split; auto.
        intros z [<-|Hz]; [lia|auto].
Qed.

(** X1.  With at least one sheet, the sheet selected is the first one of
    the greatest number of rows: every sheet before it has fewer rows and
    no sheet after it has more.  With no sheet the call ends in the
    exception handler. *)
Theorem target_sheet_is_first_longest :
  clean_excel [] = Raised
  /\ forall first_sheet others,
      exists before name target after,
        first_sheet :: others = before ++ (name, target) :: after
        /\ target_sheet (first_sheet :: others) = Some target
        /\ (forall s, In s before ->
                      (List.length (snd s) < List.length target)%nat)
        /\ (forall s, In s after ->
                      (List.length (snd s) <= List.length target)%nat).
Proof.
  split; [reflexivity|]. intros x rest. unfold target_sheet.
  destruct (max_rows_first x rest) as [[E H]|(l1 & y & l2 & -> & E & Lx & H1 & H2)];
    rewrite E.
  - exists [], (fst x), (snd x), rest. destruct x as [xn xs]. simpl in *.
    repeat split; auto. intros s [].
  - exists (x :: l1), (fst y), (snd y), l2. destruct y as [yn ys]. simpl in *.
    repeat split; auto. intros s [<-|Hs]; auto.
Qed.

Lemma take_columns_none (g : nat -> bool) (ks : list nat) (r : list cell) :
  (forall k, g k = false) -> take_columns (map g ks) r = [].
Proof.
  intros Hg. revert r. induction ks as [|k ks IH]; intros [|c r]; simpl;
    try reflexivity.
  rewrite Hg. apply IH.
Qed.

Lemma forallb_skipn {A : Type} (f : A -> bool) n l :
  forallb f l = true -> forallb f (skipn n l) = true.
Proof.
  rewrite !forallb_forall. intros H x Hx. apply H. eapply In_skipn; eassumption.
Qed.

(** X2.  When every row below the header row is missing in all its cells
    (or the header row is the last row), the table written has no row and
    no column: the labels of the header row are dropped with their empty
    columns. *)
Theorem header_without_data_gives_empty_frame :
  forall all_sheets target i row,
    target_sheet all_sheets = Some target -> empty target = false ->
    nth_error target i = Some row -> (3 < filled row)%nat ->
    (forall k row', (k < i)%nat -> nth_error target k = Some row' ->
                    (filled row' <= 3)%nat) ->
    (forall r, In r (skipn (S i) target) -> forallb isnull r = true) ->
    clean_excel all_sheets = Cleaned (mkFrame [] []).
Proof.
  intros all_sheets target i row Ht He Hn Hf Hbefore Hbelow.
  unfold clean_excel. rewrite Ht, He.
  rewrite (find_header_some 0 target i row Hn Hf Hbefore). simpl Nat.add.
  rewrite rebase_skip. f_equal.
  apply nth_error_split in Hn as (l1 & l2 & -> & Hlen).
  assert (S1 : skipn i (l1 ++ row :: l2) = row :: l2).
  { rewrite <- Hlen. rewrite skipn_app, skipn_all, Nat.sub_diag. reflexivity. }
  assert (S2 : skipn (S i) (l1 ++ row :: l2) = l2).
  { rewrite <- Hlen. rewrite skipn_app, skipn_all2 by lia.
    replace (S (List.length l1) - List.length l1)%nat with 1%nat by lia.
    reflexivity. }
  rewrite S1. rewrite S2 in Hbelow. unfold to_frame. cbn [map hd tl].
  assert (D : dropna_all (map (skipn (hd 0%nat (non_empty_indices row))) l2) = []).
  { unfold dropna_all. apply filter_nil_iff. intros r Hr.
    apply in_map_iff in Hr as (r0 & <- & Hr0).
    rewrite (forallb_skipn isnull _ r0 (Hbelow r0 Hr0)). reflexivity. }
  rewrite D. unfold drop_null_columns. cbn [columns data map].
  f_equal. apply take_columns_none. reflexivity.
Qed.

(** X2 on a sheet with a title row, a header row and an empty row. *)
Lemma header_without_data_witness :
  clean_excel
    [("Sheet1",
      [[Some "report"; None; None; None];
       [Some "a"; Some "b"; Some "c"; Some "d"];
       [None; None; None; None]])]
  = Cleaned (mkFrame [] []).
Proof.
  apply (header_without_data_gives_empty_frame
           [("Sheet1",
             [[Some "report"; None; None; None];
              [Some "a"; Some "b"; Some "c"; Some "d"];
              [None; None; None; None]])]
           [[Some "report"; None; None; None];
            [Some "a"; Some "b"; Some "c"; Some "d"];
            [None; None; None; None]]
           1 [Some "a"; Some "b"; Some "c"; Some "d"]).
  - reflexivity.
  - reflexivity.
  - reflexivity.
  - vm_compute. lia.
  - intros [|k] row' Hk Hrow'; [|lia]. inversion Hrow'; subst. vm_compute. lia.
  - intros r [<-|[]]. reflexivity.
Defined.

End NormalizerExtras.

(** ** The two resolvers: provenance, keys and edge cases *)

Section ResolverExtras.
Import Frame ListFacts FrameFacts Resolver CountFacts VoteFacts LookupFacts.
Import TextFacts.

Lemma with_owner_twice r x y : with_owner (with_owner r x) y = with_owner r y.
Proof. reflexivity. Qed.

Lemma list_sum_ge {A : Type} (h : A -> nat) l :
  (forall y, 1 <= h y)%nat -> (List.length l <= list_sum (map h l))%nat.
Proof.
  intros H. induction l as [|z l IH]; simpl; [lia|]. specialize (H z). lia.
Qed.

Lemma list_sum_ones {A : Type} (h : A -> nat) l :
  (forall y, h y = 1%nat) -> list_sum (map h l) = List.length l.
Proof.
  intros H. induction l as [|z l IH]; simpl; [reflexivity|]. now rewrite H, IH.
Qed.

Lemma find_none_iff {A : Type} (f : A -> bool) l :
  (forall x, In x l -> f x = false) -> find f l = None.
Proof.
  intros H. destruct (find f l) as [x|] eqn:E; [|reflexivity].
  apply find_some in E as [Hx Fx]. rewrite (H x Hx) in Fx. discriminate.
Qed.

Lemma filtered_dept_In df r0 :
  In r0 (filtered_dept df) <->
  exists r, In r df /\ in_department r = true
            /\ r0 = with_PAG r (canonical_PAG (PAG r)).
Proof.
  unfold filtered_dept. rewrite in_map_iff. split.
  - intros (r & <- & Hr). apply filter_In in Hr. exists r. tauto.
  - intros (r & Hr & Hd & ->). exists r. split; [reflexivity|].
    apply filter_In. auto.
Qed.

Lemma resolved_row_source df master r' :
  In r' (process_cleaned_excel df master) ->
  exists r x, In r df /\ in_department r = true
              /\ r' = with_owner (with_PAG r (canonical_PAG (PAG r))) x.
Proof.
  unfold process_cleaned_excel. rewrite master_lookup_rows, majority_vote_map.
  intros H. apply in_flat_map in H as (r1 & H1 & H).
  apply master_rows_frame in H as [(x & ->) _].
  apply in_map_iff in H1 as (r0 & <- & H0).
  apply filtered_dept_In in H0 as (r & Hr & Hd & ->).
  exists r, x. rewrite with_owner_twice. auto.
Qed.

(** X3.  Every row of [df_leaders_final] is a row of department 25902 of
    the input with its [PAG] in canonical form and at most the owner
    changed; every such input row is found in the output, so no row of
    the department is lost and no other row gets in. *)
Theorem resolved_rows_are_the_department_rows :
  forall df master,
    (forall r', In r' (process_cleaned_excel df master) ->
                exists r x, In r df /\ in_department r = true
                  /\ r' = with_owner (with_PAG r (canonical_PAG (PAG r))) x)
    /\ (forall r, In r df -> in_department r = true ->
                  exists x,
                    In (with_owner (with_PAG r (canonical_PAG (PAG r))) x)
                       (process_cleaned_excel df master))
    /\ (List.length (filter in_department df)
        <= List.length (process_cleaned_excel df master))%nat.
Proof.
  intros df master. split; [apply resolved_row_source|].
  unfold process_cleaned_excel.
  rewrite master_lookup_rows, majority_vote_map.
  set (dept := filtered_dept df).
  set (vote := fun r => with_owner r (voted_owner dept r)).
  set (b := map vote dept).
  split.
  - intros r Hr Hd.
    set (r0 := with_PAG r (canonical_PAG (PAG r))).
    assert (H0 : In r0 dept) by (apply filtered_dept_In; exists r; auto).
    assert (H1 : In (vote r0) b) by (apply in_map; exact H0).
    destruct (master_rows b (df_leaders master) (vote r0)) as [|r' t] eqn:E.
    + pose proof (master_rows_length b (df_leaders master) (vote r0)) as L.
      rewrite E in L. cbn [List.length] in L. lia.
    + assert (H' : In r' (master_rows b (df_leaders master) (vote r0)))
        by (rewrite E; simpl; auto).
      pose proof (master_rows_frame _ _ _ _ H') as [(x & Ex) _].
      exists x. apply in_flat_map. exists (vote r0). split; [exact H1|].
      unfold vote in Ex. rewrite with_owner_twice in Ex. now rewrite <- Ex.
  - rewrite length_flat_map.
    assert (Lb : List.length b = List.length (filter in_department df)).
    { unfold b, dept, filtered_dept. now rewrite !length_map. }
    rewrite <- Lb. apply list_sum_ge. intros y. rewrite master_rows_length. lia.
Qed.

Lemma canonical_PAG_idem c : canonical_PAG (canonical_PAG c) = canonical_PAG c.
Proof.
  unfold canonical_PAG. cbn [astype_str].
  now rewrite strip_upper, strip_idem, upper_idem.
Qed.

Lemma canonical_PAG_strip c :
  canonical_PAG (str_strip (canonical_PAG c)) = canonical_PAG c.
Proof.
  unfold canonical_PAG, str_strip. cbn [option_map astype_str].
  now rewrite !strip_upper, !strip_idem, upper_idem.
Qed.

(** X4.  Putting a [PAG] in canonical form (text, trimmed, upper case)
    twice is the same as doing it once, also with a trim in between; a
    missing [PAG] becomes the text NAN; and lines 152-153 leave the [PAG]
    of every row of [df_leaders_final] as it is. *)
Theorem canonical_PAG_is_stable :
  (forall c, canonical_PAG (canonical_PAG c) = canonical_PAG c
             /\ canonical_PAG (str_strip (canonical_PAG c)) = canonical_PAG c)
  /\ canonical_PAG None = Some "NAN"
  /\ (forall df master r',
         In r' (process_cleaned_excel df master) ->
         canonical_PAG (str_strip (PAG r')) = PAG r').
Proof.
  split; [|split].
  - intros c. split; [apply canonical_PAG_idem|apply canonical_PAG_strip].
  - reflexivity.
  - intros df master r' H.
    destruct (resolved_row_source df master r' H) as (r & x & _ & _ & ->).
    simpl. apply canonical_PAG_strip.
Qed.

Lemma voted_owner_without_code dept r :
  Code r = None -> Member_Supervisor r = Some sentinel ->
  voted_owner dept r = None.
Proof.
  intros Hc Hs. unfold voted_owner. rewrite (proj2 (is_sentinel_true _) Hs).
  rewrite find_none_iff; [reflexivity|].
  intros j Hj. apply joined_df_In in Hj as (g & r0 & _ & _ & _ & _ & _ & ->).
  unfold on_PAG_Code_MS. simpl. rewrite Hc.
  assert (F : cell_eqb None (Some (g_Code g)) = false)
    by (apply cell_eqb_false; discriminate).
  rewrite F. now rewrite andb_false_r.
Qed.

Lemma voted_rows_with_sentinel_have_code dept r1 :
  In r1 (majority_vote dept) -> Member_Supervisor r1 = Some sentinel ->
  Code r1 <> None.
Proof.
  rewrite majority_vote_map. intros H Hs Hc.
  apply in_map_iff in H as (x & <- & Hx). simpl in Hs, Hc.
  destruct (cell_eq_dec (Member_Supervisor x) (Some sentinel)) as [Sx|Sx].
  - rewrite (voted_owner_without_code dept x Hc Sx) in Hs. discriminate.
  - unfold voted_owner in Hs.
    rewrite (proj2 (is_sentinel_false _) Sx) in Hs. contradiction.
Qed.

(** X5.  A sentinel row without a [Code] belongs to no group of the
    count table: Step 3 replaces its owner by the missing value, and
    Step 4 then leaves it alone, as one row, whatever the master table
    holds for its [PAG]. *)
Theorem sentinel_row_without_code_ends_missing :
  forall dept leaders i r,
    nth_error dept i = Some r ->
    Member_Supervisor r = Some sentinel -> Code r = None ->
    nth_error (majority_vote dept) i = Some (with_owner r None)
    /\ master_rows (majority_vote dept) leaders (with_owner r None)
       = [with_owner r None].
Proof.
  intros dept leaders i r Hn Hs Hc. split.
  - rewrite majority_vote_map, nth_error_map, Hn. simpl.
    now rewrite (voted_owner_without_code dept r Hc Hs).
  - unfold master_rows, left_rows.
    assert (Z : filter (on_PAG_Code' (with_owner r None))
                       (df_leaders_select (majority_vote dept) leaders) = []).
    { apply filter_nil_iff. intros k Hk.
      apply df_leaders_select_In in Hk as (r0 & l & H0 & S0 & _ & _ & ->).
      pose proof (voted_rows_with_sentinel_have_code dept r0 H0 S0) as C0.
      unfold on_PAG_Code'. simpl. rewrite Hc.
      assert (F : cell_eqb None (Code r0) = false)
        by (apply cell_eqb_false; congruence).
      rewrite F. apply andb_false_r. }
    rewrite Z. reflexivity.
Qed.

(** X5 on a sentinel row without a [Code] whose [PAG] the master table
    holds. *)
Lemma sentinel_row_without_code_witness :
  nth_error
    (majority_vote
       [mkRow (Some 25902%Z) None (Some "P") (Some sentinel) None [];
        plain_row "C1" "P" "Alice"]) 0
  = Some (with_owner
            (mkRow (Some 25902%Z) None (Some "P") (Some sentinel) None [])
            None)
  /\ master_rows
       (majority_vote
          [mkRow (Some 25902%Z) None (Some "P") (Some sentinel) None [];
           plain_row "C1" "P" "Alice"])
       [mkLeader (Some "P") (Some "Zed") None]
       (with_owner
          (mkRow (Some 25902%Z) None (Some "P") (Some sentinel) None [])
          None)
     = [with_owner
          (mkRow (Some 25902%Z) None (Some "P") (Some sentinel) None [])
          None].
Proof.
  apply (sentinel_row_without_code_ends_missing
           [mkRow (Some 25902%Z) None (Some "P") (Some sentinel) None [];
            plain_row "C1" "P" "Alice"]
           [mkLeader (Some "P") (Some "Zed") None] 0
           (mkRow (Some 25902%Z) None (Some "P") (Some sentinel) None []));
    reflexivity.
Defined.

(** X6.  A sentinel row with both keys leaves Step 3 with an owner other
    than the sentinel exactly when some other owner of its group has more
    rows than the sentinel, or as many and a name that sorts before the
    sentinel's. *)
Theorem majority_vote_resolves_iff_outnumbered :
  forall dept i r c p,
    nth_error dept i = Some r ->
    Member_Supervisor r = Some sentinel -> Code r = Some c -> PAG r = Some p ->
    exists w,
      nth_error (majority_vote dept) i = Some (with_owner r (Some w))
      /\ (w <> sentinel <->
          exists m, m <> sentinel
            /\ ((votes dept c p sentinel < votes dept c p m)%nat
                \/ (votes dept c p m = votes dept c p sentinel
                    /\ String.compare m sentinel = Lt))).
Proof.
  intros dept i r c p Hn Hs Hc Hp.
  destruct (votes_max_tie dept i r c p Hn Hs Hc Hp) as (w & Hw & Hmax & Htie).
  exists w. split; [exact Hw|]. split.
  - intros Nw. exists w. split; [exact Nw|].
    pose proof (Hmax sentinel) as M.
    destruct (Nat.eq_dec (votes dept c p sentinel) (votes dept c p w)) as [E|E];
      [|left; lia].
    right. split; [now symmetry|].
    pose proof (Htie sentinel E) as L. unfold String.leb in L.
    destruct (String.compare w sentinel) eqn:C; try reflexivity; try discriminate.
    apply compare_eq in C. contradiction.
  - intros (m & Nm & [G|[E C]]) ->.
    + pose proof (Hmax m). lia.
    + pose proof (Htie m E) as L. unfold String.leb in L.
      apply compare_gt_lt in C. rewrite C in L. discriminate.
Qed.

(** X6 on the fixture of three rows of Alice, three of Bob and one
    sentinel row. *)
Lemma majority_vote_resolves_witness :
  exists w,
    nth_error (majority_vote (tie_fixture "P")) 6
    = Some (with_owner (plain_row "C1" "P" sentinel) (Some w))
    /\ (w <> sentinel <->
        exists m, m <> sentinel
          /\ ((votes (tie_fixture "P") "C1" "P" sentinel
               < votes (tie_fixture "P") "C1" "P" m)%nat
              \/ (votes (tie_fixture "P") "C1" "P" m
                  = votes (tie_fixture "P") "C1" "P" sentinel
                  /\ String.compare m sentinel = Lt))).
Proof.
  apply (majority_vote_resolves_iff_outnumbered
           (tie_fixture "P") 6 (plain_row "C1" "P" sentinel) "C1" "P");
    reflexivity.
Defined.

Lemma df_leaders_select_In_dedup b leaders k :
  In k (df_leaders_select b leaders) <->
  exists r l, In r b /\ Member_Supervisor r = Some sentinel
              /\ In l (df_accural_manager_code leaders) /\ PAG r = l_PAG l
              /\ k = mkLookup (PAG r) (Code r) (l_MS l).
Proof.
  unfold df_leaders_select, df_leaders_UN. rewrite in_map_iff. split.
  - intros ([r l] & <- & H). apply merge_inner_In in H as (Hr & Hl & Hm).
    apply filter_In in Hr as [Hr Hs]. apply is_sentinel_true in Hs.
    apply cell_eqb_true in Hm. exists r, l. simpl. auto.
  - intros (r & l & Hr & Hs & Hl & Hp & ->). exists (r, l).
    split; [reflexivity|]. apply merge_inner_In. split; [|split].
    + apply filter_In. split; [exact Hr|]. now apply is_sentinel_true.
    + exact Hl.
    + now apply cell_eqb_true.
Qed.

Lemma master_first_row leaders p l :
  In l (df_accural_manager_code leaders) -> l_PAG l = p ->
  find (fun l' => cell_eqb p (l_PAG l')) leaders = Some l.
Proof.
  intros Hl Hp.
  rewrite <- (drop_dups_find l_PAG _ l_PAG_key
                (fun l' => cell_eqb p (l_PAG l')) [] leaders);
    [|intros a b E; now rewrite E|intros y []].
  fold (drop_duplicates (fun a b => cell_eqb (l_PAG a) (l_PAG b)) leaders).
  fold (df_accural_manager_code leaders).
  destruct (find (fun l' => cell_eqb p (l_PAG l'))
                 (df_accural_manager_code leaders)) as [l'|] eqn:F.
  - apply find_some in F as [Hl' E]. apply cell_eqb_true in E.
    f_equal. apply (NoDup_map_key l_PAG (df_accural_manager_code leaders));
      auto; [|congruence].
    apply (drop_dups_keys_NoDup l_PAG _ l_PAG_key).
  - apply (find_none _ _ F) in Hl. apply cell_eqb_false in Hl. congruence.
Qed.

(** X7.  The owner Step 4 gives a sentinel row is the owner of the first
    row of the master table that has the row's [PAG], and the missing
    value when the master table has no such row; later master rows of
    the same [PAG] are never used. *)
Theorem master_lookup_uses_first_master_row :
  forall b leaders r r',
    In r b -> Member_Supervisor r = Some sentinel ->
    In r' (master_rows b leaders r) ->
    Member_Supervisor r'
    = match find (fun l => cell_eqb (PAG r) (l_PAG l)) leaders with
      | Some l => l_MS l
      | None => None
      end.
Proof.
  intros b leaders r r' Hr Hs H.
  apply master_rows_In in H as (ok & Hok & ->).
  unfold fallback_owner. simpl. rewrite (proj2 (is_sentinel_true _) Hs).
  apply left_rows_snd in Hok. simpl in Hok. destruct ok as [k|]; simpl.
  - destruct Hok as [Hk Hm].
    apply df_leaders_select_In_dedup in Hk as (r0 & l & _ & _ & Hl & Hp & ->).
    unfold on_PAG_Code' in Hm. simpl in Hm. apply andb_prop in Hm as [Hm _].
    apply cell_eqb_true in Hm. simpl.
    rewrite (master_first_row leaders (PAG r) l Hl); [reflexivity|congruence].
  - destruct (find (fun l => cell_eqb (PAG r) (l_PAG l)) leaders) as [l|] eqn:F;
      [|reflexivity].
    exfalso. apply find_some in F as [Hl E]. apply cell_eqb_true in E.
    destruct (drop_dups_complete l_PAG _ l_PAG_key l [] leaders Hl)
      as (l' & Hl' & El'); [simpl; tauto|].
    assert (Hk : In (mkLookup (PAG r) (Code r) (l_MS l'))
                    (df_leaders_select b leaders)).
    { apply df_leaders_select_In_dedup. exists r, l'.
      repeat split; auto. congruence. }
    apply Hok in Hk. unfold on_PAG_Code' in Hk. simpl in Hk.
    now rewrite !cell_eqb_refl in Hk.
Qed.

(** X7 on a master table with two rows of one [PAG]. *)
Lemma master_lookup_first_row_witness :
  Member_Supervisor (with_owner (plain_row "C1" "P" sentinel) (Some "Zed"))
  = match find (fun l => cell_eqb (PAG (plain_row "C1" "P" sentinel)) (l_PAG l))
               [mkLeader (Some "P") (Some "Zed") None;
                mkLeader (Some "P") (Some "Yann") (Some "D")] with
    | Some l => l_MS l
    | None => None
    end.
Proof.
  apply (master_lookup_uses_first_master_row
           [plain_row "C1" "P" sentinel]
           [mkLeader (Some "P") (Some "Zed") None;
            mkLeader (Some "P") (Some "Yann") (Some "D")]
           (plain_row "C1" "P" sentinel)).
  - simpl. auto.
  - reflexivity.
  - vm_compute. auto.
Defined.

Lemma master_match_at_most_one leaders p :
  (List.length (filter (fun l => cell_eqb p (l_PAG l))
                       (df_accural_manager_code leaders)) <= 1)%nat.
Proof.
  pose proof (drop_dups_keys_NoDup l_PAG _ l_PAG_key [] leaders) as N.
  fold (drop_duplicates (fun a b => cell_eqb (l_PAG a) (l_PAG b)) leaders) in N.
  fold (df_accural_manager_code leaders) in N.
  rewrite (filter_unique (fun l => cell_eqb p (l_PAG l))).
  - destruct (find _ _); simpl; lia.
  - eapply NoDup_map_inv; eassumption.
  - intros x y Hx Hy Ex Ey. apply cell_eqb_true in Ex, Ey.
    apply (NoDup_map_key l_PAG _ x y N Hx Hy). congruence.
Qed.

Lemma select_hits_at_most_one leaders r (X : list row) :
  NoDup (map (fun r0 => (PAG r0, Code r0)) X) ->
  (List.length
     (filter (on_PAG_Code' r)
        (flat_map (fun r0 =>
                     map (fun l => mkLookup (PAG r0) (Code r0) (l_MS l))
                         (filter (fun l => cell_eqb (PAG r0) (l_PAG l))
                                 (df_accural_manager_code leaders)))
                  X)) <= 1)%nat.
Proof.
  induction X as [|r0 X IH]; simpl; [lia|].
  intros N. inversion N as [|? ? Hnot HN]; subst.
  rewrite filter_app, length_app.
  destruct (Roster.owner_PAG_eq_dec (PAG r0, Code r0) (PAG r, Code r)) as [E|E].
  - assert (Z : filter (on_PAG_Code' r)
                  (flat_map (fun r1 =>
                     map (fun l => mkLookup (PAG r1) (Code r1) (l_MS l))
                         (filter (fun l => cell_eqb (PAG r1) (l_PAG l))
                                 (df_accural_manager_code leaders)))
                     X) = []).
    { apply filter_nil_iff. intros k Hk. apply in_flat_map in Hk as (r1 & H1 & Hk).
      apply in_map_iff in Hk as (l & <- & _). unfold on_PAG_Code'. simpl.
      destruct (cell_eqb (PAG r) (PAG r1) && cell_eqb (Code r) (Code r1)) eqn:B;
        [|reflexivity].
      apply andb_prop in B as [B1 B2]. apply cell_eqb_true in B1, B2.
      exfalso. apply Hnot. apply in_map_iff. exists r1. split; [|exact H1].
      rewrite E. congruence. }
    rewrite Z. simpl. rewrite Nat.add_0_r.
    etransitivity; [apply filter_length_le|].
    rewrite length_map. apply master_match_at_most_one.
  - assert (Z : filter (on_PAG_Code' r)
                  (map (fun l => mkLookup (PAG r0) (Code r0) (l_MS l))
                       (filter (fun l => cell_eqb (PAG r0) (l_PAG l))
                               (df_accural_manager_code leaders))) = []).
    { apply filter_nil_iff. intros k Hk. apply in_map_iff in Hk as (l & <- & _).
      unfold on_PAG_Code'. simpl.
      destruct (cell_eqb (PAG r) (PAG r0) && cell_eqb (Code r) (Code r0)) eqn:B;
        [|reflexivity].
      apply andb_prop in B as [B1 B2]. apply cell_eqb_true in B1, B2.
      exfalso. apply E. congruence. }
    rewrite Z. simpl. now apply IH.
Qed.

(** X8.  When no two rows that hold the sentinel share their [PAG] and
    [Code], the left merge of Step 4 does not fan out: every row of
    [b_test] yields exactly one output row, and the output has as many
    rows as the input. *)
Theorem master_lookup_keeps_row_count :
  forall b leaders,
    NoDup (map (fun r => (PAG r, Code r)) (b_test1 b)) ->
    (forall r, List.length (master_rows b leaders r) = 1%nat)
    /\ List.length (master_lookup b leaders) = List.length b.
Proof.
  intros b leaders N.
  assert (H1 : forall r, List.length (master_rows b leaders r) = 1%nat).
  { intros r. rewrite master_rows_length, df_leaders_select_flat.
    pose proof (select_hits_at_most_one leaders r (b_test1 b) N). lia. }
  split; [exact H1|].
  rewrite master_lookup_rows, length_flat_map. now apply list_sum_ones.
Qed.

(** X8 on two sentinel rows of different codes. *)
Lemma master_lookup_keeps_row_count_witness :
  (forall r,
      List.length
        (master_rows [plain_row "C1" "P" sentinel; plain_row "C2" "P" sentinel;
                      plain_row "C1" "P" "Alice"]
                     [mkLeader (Some "P") (Some "Zed") None] r) = 1%nat)
  /\ List.length
       (master_lookup [plain_row "C1" "P" sentinel; plain_row "C2" "P" sentinel;
                       plain_row "C1" "P" "Alice"]
                      [mkLeader (Some "P") (Some "Zed") None])
     = 3%nat.
Proof.
  apply (master_lookup_keeps_row_count
           [plain_row "C1" "P" sentinel; plain_row "C2" "P" sentinel;
            plain_row "C1" "P" "Alice"]
           [mkLeader (Some "P") (Some "Zed") None]).
  vm_compute. repeat constructor; simpl; intuition discriminate.
Defined.

End ResolverExtras.

(** ** The director map and the accrual sheet: what is kept *)

Section JoinExtras.
Import Frame ListFacts FrameFacts Resolver Director DirectorFacts.
Import Propagator PropagatorFacts.

Lemma edited_match reread df_edited r :
  (exists e, In e (df_manager_director reread df_edited)
             /\ on_PAG_MS r e = true)
  <-> exists e0, In e0 df_edited
                 /\ PAG r = reread (e_PAG e0)
                 /\ Member_Supervisor r = reread (e_MS e0).
Proof.
  split.
  - intros (e & He & Hm). apply df_manager_director_In in He as (e0 & H0 & ->).
    apply on_PAG_MS_true in Hm. simpl in Hm. exists e0. tauto.
  - intros (e0 & H0 & Hp & Hm).
    exists (mkRoster (reread (e_PAG e0)) (reread (e_MS e0))
                     (reread (e_DIRECTOR e0))).
    split; [apply df_manager_director_In; eauto|].
    apply on_PAG_MS_true. simpl. auto.
Qed.

(** X9.  For an edited table with at least one row the stage returns
    nothing when lines 193-219 raise, and otherwise a director map and a
    master table without repeated rows.  Every row of [df_leaders_final]
    is in the map; its director is the one read back from a row of the
    edited table with the same [PAG] and owner, and is missing only when
    the edited table has no such row.  The master table holds exactly the
    triples ([PAG], owner, director) of the map. *)
Theorem director_map_content :
  forall reread raises df_edited lf,
    df_edited <> [] ->
    exists master dmap,
      process_master_data_update reread raises df_edited lf
      = (if raises df_edited lf then None else Some (master, dmap))
      /\ NoDup dmap /\ NoDup master
      /\ (forall r, In r lf -> exists x, In (mkMapped r x) dmap)
      /\ (forall d, In d dmap ->
            In (m_row d) lf
            /\ ((exists e, In e df_edited
                   /\ PAG (m_row d) = reread (e_PAG e)
                   /\ Member_Supervisor (m_row d) = reread (e_MS e)
                   /\ m_DIRECTOR d = reread (e_DIRECTOR e))
                \/ (m_DIRECTOR d = None
                    /\ forall e, In e df_edited ->
                         ~ (PAG (m_row d) = reread (e_PAG e)
                            /\ Member_Supervisor (m_row d) = reread (e_MS e)))))
      /\ (forall e, In e master <-> exists d, In d dmap /\ e = roster_of_mapped d).
Proof.
  intros reread raises df_edited lf HE.
  exists (df_director_master (df_director_map reread df_edited lf)),
         (df_director_map reread df_edited lf).
  split; [destruct df_edited; [contradiction|reflexivity]|].
  split; [apply drop_duplicates_NoDup|].
  split; [apply drop_duplicates_NoDup|].
  split; [intros r Hr; now apply df_director_map_covers|].
  split.
  - intros d Hd. apply df_director_map_In in Hd as (Hr & H).
    split; [exact Hr|].
    destruct H as [(e & He & Hm & Hx)|(Hno & Hx)].
    + left. apply df_manager_director_In in He as (e0 & H0 & ->).
      apply on_PAG_MS_true in Hm. simpl in *. exists e0. tauto.
    + right. split; [exact Hx|]. intros e0 H0 [Hp Hm].
      assert (M : exists e, In e (df_manager_director reread df_edited)
                            /\ on_PAG_MS (m_row d) e = true)
        by (apply edited_match; eauto).
      destruct M as (e & He & Hme). rewrite (Hno e He) in Hme. discriminate.
  - intros e. unfold df_director_master.
    rewrite drop_duplicates_In, in_map_iff.
    split; intros (d & H1 & H2); exists d; auto.
Qed.

(** X9 with an edited table that names two directors for one owner, on
    tables on which nothing is raised. *)
Lemma director_map_content_witness :
  exists master dmap,
    process_master_data_update empty_as_missing never
      [mkRoster (Some "P") (Some "Alice") (Some "D1");
       mkRoster (Some "P") (Some "Alice") (Some "D2")]
      [plain_row "C1" "P" "Alice"; plain_row "C2" "P" "Bob"]
    = Some (master, dmap)
    /\ NoDup dmap /\ NoDup master
    /\ List.length dmap = 3%nat.
Proof.
  destruct (director_map_content empty_as_missing never
              [mkRoster (Some "P") (Some "Alice") (Some "D1");
               mkRoster (Some "P") (Some "Alice") (Some "D2")]
              [plain_row "C1" "P" "Alice"; plain_row "C2" "P" "Bob"])
    as (master & dmap & E & N1 & N2 & _); [discriminate|].
  exists master, dmap. repeat split; auto.
  vm_compute in E. inversion E. reflexivity.
Defined.

(** X10.  A sheet is written for the accrual file exactly when a file
    and a director map with at least one row are given, the cleaning of
    the file succeeds, the cleaned sheet is read with its columns, and
    nothing is raised.  The sheet holds the accrual rows that pass the
    filter, each once and in their order, with the employee id as text in
    [MEMBER ID]: a roster with several rows of one pair multiplies no
    accrual row, however the projects are compared. *)
Theorem accrual_rows_are_kept_once :
  forall same_Project read_Data raises accrual_file df_director_map,
    (forall out,
        process_accrual_mapping same_Project read_Data raises
                                accrual_file df_director_map = Some out
        <-> exists all_sheets dmap cleaned_df df_accrual,
              accrual_file = Some all_sheets
              /\ df_director_map = Some dmap /\ dmap <> []
              /\ Normalizer.clean_excel all_sheets
                 = Normalizer.Cleaned cleaned_df
              /\ read_Data cleaned_df = Some df_accrual
              /\ raises df_accrual dmap = false
              /\ out = df_accural_final same_Project df_accrual dmap)
    /\ (forall df_accrual dmap,
           map (fun a => (a_trx a, MEMBER_ID a))
               (df_accural_final same_Project df_accrual dmap)
           = filtered_df_accrual df_accrual
           /\ map a_trx (df_accural_final same_Project df_accrual dmap)
              = filter accrual_filter df_accrual
           /\ (forall a,
                  In a (df_accural_final same_Project df_accrual dmap) ->
                  MEMBER_ID a = Some (astype_str (Empl_ID (a_trx a))))).
Proof.
  intros same_Project read_Data raises accrual_file df_director_map. split.
  - intros out. unfold process_accrual_mapping. split.
    + destruct accrual_file as [all_sheets|]; [|discriminate].
      destruct df_director_map as [[|m dmap]|]; try discriminate.
      destruct (Normalizer.clean_excel all_sheets) as [f| | |] eqn:C;
        try discriminate.
      destruct (read_Data f) as [df_accrual|] eqn:R; [|discriminate].
      destruct (raises df_accrual (m :: dmap)) eqn:X; [discriminate|].
      intros E. injection E as <-.
      exists all_sheets, (m :: dmap), f, df_accrual.
      repeat split; auto. discriminate.
    + intros (all_sheets & dmap & f & df_accrual
              & -> & -> & Hd & C & R & X & ->).
      destruct dmap as [|m dmap]; [contradiction|].
      now rewrite C, R, X.
  - intros df_accrual dmap.
    pose proof (final_keeps_rows same_Project df_accrual dmap) as K.
    split; [exact K|]. split.
    + rewrite <- (map_map (fun a => (a_trx a, MEMBER_ID a)) fst), K.
      unfold filtered_df_accrual. rewrite map_map. simpl. apply map_id.
    + intros a Ha.
      assert (Hin : In (a_trx a, MEMBER_ID a) (filtered_df_accrual df_accrual)).
      { rewrite <- K. now apply (in_map (fun a => (a_trx a, MEMBER_ID a))). }
      unfold filtered_df_accrual in Hin.
      apply in_map_iff in Hin as (t0 & E & _). inversion E. reflexivity.
Qed.

End JoinExtras.

(** ** The monthly roster *)

Module RosterFacts.
Import Frame ListFacts FrameFacts Resolver Roster TextFacts.

Lemma str_strip_idem c : str_strip (str_strip c) = str_strip c.
Proof. destruct c as [s|]; simpl; [now rewrite strip_idem|reflexivity]. Qed.

Lemma df_leaders_LNB_In lf mp :
  In mp (df_leaders_LNB lf) <->
  exists r, In r lf
            /\ mp = (str_strip (Member_Supervisor r),
                     canonical_PAG (str_strip (PAG r))).
Proof.
  unfold df_leaders_LNB. rewrite in_map_iff. split.
  - intros ([m p] & <- & H). apply drop_duplicates_In in H.
    apply in_map_iff in H as (r & E & Hr). inversion E; subst. eauto.
  - intros (r & Hr & ->). exists (Member_Supervisor r, PAG r).
    split; [reflexivity|]. apply drop_duplicates_In.
    apply in_map_iff. eauto.
Qed.

Lemma on_PAG_owner_true mp l :
  on_PAG_owner mp l = true <-> l_PAG l = snd mp /\ l_MS l = fst mp.
Proof.
  unfold on_PAG_owner. rewrite andb_true_iff, !cell_eqb_true.
  split; intros [H1 H2]; auto.
Qed.

Lemma merged_In lf leaders m :
  In m (merged lf leaders) <->
  In (r_MS m, r_PAG m) (df_leaders_LNB lf) /\
  ((exists l, In l leaders /\ l_PAG l = r_PAG m /\ l_MS l = r_MS m
              /\ r_DIRECTOR m = DIRECTOR l)
   \/ (r_DIRECTOR m = None
       /\ forall l, In l leaders -> ~ (l_PAG l = r_PAG m /\ l_MS l = r_MS m))).
Proof.
  unfold merged. rewrite drop_duplicates_In, in_map_iff. split.
  - intros ([[ms pg] ol] & <- & H). apply merge_left_In in H as (Hmp & H).
    apply left_rows_snd in H. simpl in *. split; [exact Hmp|].
    destruct ol as [l|]; simpl.
    + destruct H as [Hl Hm]. apply on_PAG_owner_true in Hm. simpl in Hm.
      left. exists l. tauto.
    + right. split; [reflexivity|]. intros l Hl Hm.
      specialize (H l Hl).
      assert (T : on_PAG_owner (ms, pg) l = true)
        by (apply on_PAG_owner_true; exact Hm).
      congruence.
  - intros (Hmp & H). destruct m as [ms pg d]. simpl in *.
    destruct H as [(l & Hl & Hp & Hm & ->)|(-> & Hno)].
    + exists ((ms, pg), Some l). split; [reflexivity|].
      apply merge_left_In. split; [exact Hmp|].
      unfold left_rows.
      assert (Hin : In l (filter (on_PAG_owner (ms, pg)) leaders)).
      { apply filter_In. split; [exact Hl|]. apply on_PAG_owner_true. auto. }
      destruct (filter (on_PAG_owner (ms, pg)) leaders); [destruct Hin|].
      now apply (in_map (fun b => ((ms, pg), Some b))).
    + exists ((ms, pg), None). split; [reflexivity|].
      apply merge_left_In. split; [exact Hmp|].
      unfold left_rows.
      assert (Z : filter (on_PAG_owner (ms, pg)) leaders = []).
      { apply filter_nil_iff. intros l Hl.
        destruct (on_PAG_owner (ms, pg) l) eqn:O; [|reflexivity].
        apply on_PAG_owner_true in O. exfalso. now apply (Hno l Hl). }
      rewrite Z. simpl. auto.
Qed.

Lemma merged_covers lf leaders r :
  In r lf ->
  exists m, In m (merged lf leaders)
            /\ r_MS m = str_strip (Member_Supervisor r)
            /\ r_PAG m = canonical_PAG (str_strip (PAG r)).
Proof.
  intros Hr.
  set (ms := str_strip (Member_Supervisor r)).
  set (pg := canonical_PAG (str_strip (PAG r))).
  assert (Hmp : In (ms, pg) (df_leaders_LNB lf))
    by (apply df_leaders_LNB_In; eauto).
  destruct (filter (on_PAG_owner (ms, pg)) leaders) as [|l t] eqn:F.
  - exists (mkMonthly ms pg None). split; [|auto].
    apply merged_In. simpl. split; [exact Hmp|]. right. split; [reflexivity|].
    intros l Hl Hm.
    assert (T : on_PAG_owner (ms, pg) l = true)
      by (apply on_PAG_owner_true; exact Hm).
    pose proof (proj1 (filter_nil_iff _ _) F l Hl). congruence.
  - exists (mkMonthly ms pg (DIRECTOR l)). split; [|auto].
    assert (Hin : In l (filter (on_PAG_owner (ms, pg)) leaders))
      by (rewrite F; simpl; auto).
    apply filter_In in Hin as [Hl Hm]. apply on_PAG_owner_true in Hm.
    apply merged_In. simpl. split; [exact Hmp|]. left. exists l. tauto.
Qed.

Lemma true_first_perm key l : Permutation (true_first key l) l.
Proof.
  unfold true_first. induction l as [|x l IH]; simpl; [reflexivity|].
  destruct (key x); simpl.
  - now constructor.
  - rewrite <- Permutation_middle. now constructor.
Qed.

Lemma true_first_split key l :
  exists l1 l2, true_first key l = l1 ++ l2
                /\ Forall (fun m => key m = true) l1
                /\ Forall (fun m => key m = false) l2.
Proof.
  exists (filter key l), (filter (fun m => negb (key m)) l).
  split; [reflexivity|]. split; apply Forall_forall; intros m Hm;
    apply filter_In in Hm as [_ Hm]; [exact Hm|now apply negb_true_iff].
Qed.

Lemma SortNull_true m :
  SortNull m = true <-> r_DIRECTOR m = None \/ r_DIRECTOR m = Some EmptyString.
Proof.
  unfold SortNull. rewrite orb_true_iff, cell_eqb_true.
  destruct (r_DIRECTOR m); simpl; split; intros [H|H]; auto; discriminate.
Qed.

End RosterFacts.

Section RosterExtras.
Import Frame ListFacts FrameFacts Resolver Director DirectorFacts.
Import Roster RosterFacts TextFacts.

(** X11.  With a sort that permutes the rows and puts the rows of key
    [True] first, the roster has no repeated row, holds for every row of
    [df_leaders_final] a row with its trimmed owner and canonical [PAG],
    takes each director from a master row of exactly that [PAG] and
    owner (missing when there is none), and lists the rows whose
    director is missing or empty before all others. *)
Theorem roster_content :
  forall sort_desc,
    (forall key l, Permutation (sort_desc key l) l) ->
    (forall key l, exists l1 l2,
        sort_desc key l = l1 ++ l2
        /\ Forall (fun m => key m = true) l1
        /\ Forall (fun m => key m = false) l2) ->
    forall lf leaders,
      NoDup (df_leaders_monthly sort_desc lf leaders)
      /\ (forall r, In r lf ->
            exists m, In m (df_leaders_monthly sort_desc lf leaders)
                      /\ r_MS m = str_strip (Member_Supervisor r)
                      /\ r_PAG m = canonical_PAG (str_strip (PAG r)))
      /\ (forall m, In m (df_leaders_monthly sort_desc lf leaders) ->
            (exists r, In r lf
                       /\ r_MS m = str_strip (Member_Supervisor r)
                       /\ r_PAG m = canonical_PAG (str_strip (PAG r)))
            /\ ((exists l, In l leaders /\ l_PAG l = r_PAG m
                           /\ l_MS l = r_MS m /\ r_DIRECTOR m = DIRECTOR l)
                \/ (r_DIRECTOR m = None
                    /\ forall l, In l leaders ->
                         ~ (l_PAG l = r_PAG m /\ l_MS l = r_MS m))))
      /\ (exists blanks filled,
            df_leaders_monthly sort_desc lf leaders = blanks ++ filled
            /\ Forall (fun m => r_DIRECTOR m = None
                                \/ r_DIRECTOR m = Some EmptyString) blanks
            /\ Forall (fun m => exists d, r_DIRECTOR m = Some d
                                          /\ d <> EmptyString) filled).
Proof.
  intros sort_desc Hperm Hsplit lf leaders. unfold df_leaders_monthly.
  pose proof (Hperm SortNull (merged lf leaders)) as P.
  split; [|split; [|split]].
  - apply (Permutation_NoDup (Permutation_sym P)).
    apply drop_duplicates_NoDup.
  - intros r Hr. destruct (merged_covers lf leaders r Hr) as (m & Hm & E).
    exists m. split; [|exact E].
    now apply (Permutation_in _ (Permutation_sym P)).
  - intros m Hm. apply (Permutation_in _ P) in Hm.
    apply merged_In in Hm as (Hmp & Hd). split; [|exact Hd].
    apply df_leaders_LNB_In in Hmp as (r & Hr & E). inversion E. eauto.
  - destruct (Hsplit SortNull (merged lf leaders)) as (l1 & l2 & E & F1 & F2).
    exists l1, l2. split; [exact E|]. split.
    + eapply Forall_impl; [|exact F1]. intros m. apply SortNull_true.
    + eapply Forall_impl; [|exact F2]. intros m Hm. simpl in Hm.
      destruct (r_DIRECTOR m) as [d|] eqn:D.
      * exists d. split; [reflexivity|]. intros ->.
        assert (T : SortNull m = true) by (apply SortNull_true; auto).
        congruence.
      * assert (T : SortNull m = true) by (apply SortNull_true; auto).
        congruence.
Qed.

(** X11 with the sort that keeps the rows of each key in their order. *)
Lemma roster_content_witness :
  NoDup (df_leaders_monthly true_first
           [plain_row "C1" "P" "Alice"; plain_row "C2" "P" " Bob "]
           [mkLeader (Some "P") (Some "Alice") (Some "D1")])
  /\ exists blanks filled,
      df_leaders_monthly true_first
        [plain_row "C1" "P" "Alice"; plain_row "C2" "P" " Bob "]
        [mkLeader (Some "P") (Some "Alice") (Some "D1")]
      = blanks ++ filled
      /\ Forall (fun m => r_DIRECTOR m = None
                          \/ r_DIRECTOR m = Some EmptyString) blanks
      /\ Forall (fun m => exists d, r_DIRECTOR m = Some d /\ d <> EmptyString)
                filled.
Proof.
  destruct (roster_content true_first true_first_perm true_first_split
              [plain_row "C1" "P" "Alice"; plain_row "C2" "P" " Bob "]
              [mkLeader (Some "P") (Some "Alice") (Some "D1")])
    as (N & _ & _ & S).
  split; [exact N|exact S].
Defined.

(** X12.  The roster of [process_cleaned_excel] holds owners in trimmed
    form and, for every row of [df_leaders_final], a row with that row's
    [PAG] unchanged and its owner trimmed.  So a row of
    [df_leaders_final] whose owner has white space at an end matches no
    roster row: when the roster is handed on as it is and read back
    unchanged, [process_master_data_update] gives such a row no
    director. *)
Theorem untrimmed_owner_gets_no_director :
  forall sort_desc,
    (forall key l, Permutation (sort_desc key l) l) ->
    forall df master,
      (forall m, In m (roster sort_desc df master) ->
                 str_strip (r_MS m) = r_MS m)
      /\ (forall r, In r (process_cleaned_excel df master) ->
            exists m, In m (roster sort_desc df master)
                      /\ r_PAG m = PAG r
                      /\ r_MS m = str_strip (Member_Supervisor r))
      /\ (forall r d,
            In (mkMapped r d)
               (df_director_map (fun c => c)
                  (map as_edited (roster sort_desc df master))
                  (process_cleaned_excel df master)) ->
            str_strip (Member_Supervisor r) <> Member_Supervisor r ->
            d = None).
Proof.
  intros sort_desc Hperm df master. unfold roster, df_leaders_monthly.
  set (lf := process_cleaned_excel df master).
  set (leaders := df_leaders master).
  pose proof (Hperm SortNull (merged lf leaders)) as P.
  assert (Trim : forall m, In m (sort_desc SortNull (merged lf leaders)) ->
                           str_strip (r_MS m) = r_MS m).
  { intros m Hm. apply (Permutation_in _ P) in Hm.
    apply merged_In in Hm as (Hmp & _).
    apply df_leaders_LNB_In in Hmp as (r & _ & E). inversion E as [[E1 E2]].
    rewrite E1. apply str_strip_idem. }
  split; [exact Trim|]. split.
  - intros r Hr. destruct (merged_covers lf leaders r Hr) as (m & Hm & E1 & E2).
    exists m. split; [now apply (Permutation_in _ (Permutation_sym P))|].
    split; [|exact E1]. rewrite E2.
    destruct (resolved_row_source df master r Hr) as (r0 & x & _ & _ & ->).
    simpl. apply canonical_PAG_strip.
  - intros r d H Hs. apply df_director_map_In in H as (_ & H). simpl in H.
    destruct H as [(e & He & Hm & _)|(_ & Hd)]; [|exact Hd].
    exfalso. apply df_manager_director_In in He as (e0 & H0 & ->).
    apply in_map_iff in H0 as (m & <- & Hm0).
    apply on_PAG_MS_true in Hm as [_ Hm]. simpl in Hm.
    apply Hs. rewrite Hm. now apply Trim.
Qed.

(** X12 on an owner with a space at each end. *)
Lemma untrimmed_owner_witness :
  Forall (fun x => m_DIRECTOR x = None)
    (df_director_map (fun c => c)
       (map as_edited
            (roster true_first [plain_row "C1" "P" " Bob "]
                    [mkLeader (Some "P") (Some "Bob") (Some "D")]))
       (process_cleaned_excel [plain_row "C1" "P" " Bob "]
                              [mkLeader (Some "P") (Some "Bob") (Some "D")])).
Proof.
  destruct (untrimmed_owner_gets_no_director true_first true_first_perm
              [plain_row "C1" "P" " Bob "]
              [mkLeader (Some "P") (Some "Bob") (Some "D")])
    as (_ & _ & K).
  apply Forall_forall. intros [r d] Hx. simpl.
  apply (K r d Hx).
  apply df_director_map_In in Hx as (Hr & _). simpl in Hr.
  vm_compute in Hr. destruct Hr as [<-|[]]. vm_compute. discriminate.
Defined.

End RosterExtras.

(** ** The director choices *)

Section ChoicesExtras.
Import Frame ListFacts FrameFacts CountFacts Roster Choices.

Lemma leb_total' a b : String.leb a b = false -> String.leb b a = true.
Proof.
  unfold String.leb. destruct (String.compare a b) eqn:C; try discriminate.
  intros _. apply compare_gt_lt in C. now rewrite C.
Qed.

Lemma leb_trans a b c :
  String.leb a b = true -> String.leb b c = true -> String.leb a c = true.
Proof.
  unfold String.leb.
  destruct (String.compare a b) eqn:C1; try discriminate;
    destruct (String.compare b c) eqn:C2; try discriminate; intros _ _.
  - apply compare_eq in C1, C2. subst. now rewrite compare_refl.
  - apply compare_eq in C1. subst. now rewrite C2.
  - apply compare_eq in C2. subst. now rewrite C1.
  - now rewrite (compare_lt_trans _ _ _ C1 C2).
Qed.

Lemma sorted_strict l :
  StronglySorted (fun a b => String.leb a b = true) l -> NoDup l ->
  StronglySorted (fun a b => String.compare a b = Lt) l.
Proof.
  induction 1 as [|x l Hs IH Hx]; intros N; [constructor|].
  inversion N as [|? ? Hnot HN]; subst. constructor; [auto|].
  rewrite Forall_forall in *. intros y Hy. specialize (Hx y Hy).
  unfold String.leb in Hx. destruct (String.compare x y) eqn:C;
    try reflexivity; try discriminate.
  apply compare_eq in C. subst. contradiction.
Qed.

Lemma dropna_unique_In df d :
  In d (dropna_unique df) <-> In (Some d) (map r_DIRECTOR df).
Proof.
  unfold dropna_unique.
  assert (K : forall a b, String.eqb a b = true <-> (fun s : string => s) a = (fun s : string => s) b)
    by (intros a b; apply String.eqb_eq).
  split.
  - intros H. apply (drop_dups_In (fun s : string => s) _ K) in H as [H _].
    apply in_flat_map in H as (m & Hm & H). apply in_map_iff. exists m.
    destruct (r_DIRECTOR m) as [d'|]; [|destruct H].
    destruct H as [->|[]]. auto.
  - intros H. apply in_map_iff in H as (m & E & Hm).
    destruct (drop_dups_complete (fun s : string => s) _ K d [] 
                (flat_map (fun m => match r_DIRECTOR m with
                                    | Some d => [d] | None => [] end) df))
      as (x & Hx & ->); [| simpl; tauto | exact Hx].
    apply in_flat_map. exists m. split; [exact Hm|]. rewrite E. simpl. auto.
Qed.

Lemma dropna_unique_NoDup df : NoDup (dropna_unique df).
Proof.
  unfold dropna_unique.
  assert (K : forall a b, String.eqb a b = true <-> (fun s : string => s) a = (fun s : string => s) b)
    by (intros a b; apply String.eqb_eq).
  pose proof (drop_dups_keys_NoDup (fun s : string => s) _ K []
                (flat_map (fun m => match r_DIRECTOR m with
                                    | Some d => [d] | None => [] end) df)) as N.
  now rewrite map_id in N.
Qed.

Lemma choices_In df d :
  In d (get_director_choices df) <->
  In (Some d) (map r_DIRECTOR df) /\ Text.strip d <> EmptyString.
Proof.
  destruct df as [|m df]; [simpl; tauto|].
  unfold get_director_choices.
  set (l := filter (fun d => negb (String.eqb (Text.strip d) EmptyString))
                   (dropna_unique (m :: df))).
  assert (Hl : In d l <-> In (Some d) (map r_DIRECTOR (m :: df))
                          /\ Text.strip d <> EmptyString).
  { unfold l. rewrite filter_In, dropna_unique_In, negb_true_iff.
    now rewrite String.eqb_neq. }
  rewrite <- Hl. split; intros H.
  - now apply (Permutation_in _ (sort_values_perm String.leb l)).
  - now apply (Permutation_in _ (Permutation_sym (sort_values_perm String.leb l))).
Qed.

(** X13.  The director choices are in strictly ascending order, so none
    is listed twice, and they are exactly the directors of the table that
    are present and do not trim to the empty string. *)
Theorem director_choices_sorted_and_exact :
  forall df,
    StronglySorted (fun a b => String.compare a b = Lt)
                   (get_director_choices df)
    /\ forall d, In d (get_director_choices df) <->
                 In (Some d) (map r_DIRECTOR df)
                 /\ Text.strip d <> EmptyString.
Proof.
  intros df. split; [|intros d; apply choices_In].
  destruct df as [|m df]; [constructor|].
  unfold get_director_choices. apply sorted_strict.
  - apply sort_values_sorted; [apply leb_total'|apply leb_trans].
  - apply (Permutation_NoDup (Permutation_sym (sort_values_perm String.leb _))).
    apply NoDup_filter, dropna_unique_NoDup.
Qed.

Lemma choices_empty_iff df :
  get_director_choices df = [] <->
  forall m, In m df ->
            r_DIRECTOR m = None
            \/ exists d, r_DIRECTOR m = Some d /\ Text.strip d = EmptyString.
Proof.
  split.
  - intros E m Hm. destruct (r_DIRECTOR m) as [d|] eqn:D; [|auto].
    right. exists d. split; [reflexivity|].
    destruct (string_dec (Text.strip d) EmptyString) as [S|S]; [exact S|].
    exfalso.
    assert (H : In d (get_director_choices df)).
    { apply choices_In. split; [|exact S]. apply in_map_iff. eauto. }
    rewrite E in H. destruct H.
  - intros H. destruct (get_director_choices df) as [|d t] eqn:E; [reflexivity|].
    exfalso.
    assert (Hd : In d (get_director_choices df)) by (rewrite E; simpl; auto).
    apply choices_In in Hd as [Hd S]. apply in_map_iff in Hd as (m & Em & Hm).
    destruct (H m Hm) as [N|(d' & Ed & Sd)]; congruence.
Qed.

(** X14.  The text shown reads [No data available] exactly for a table
    without rows, and [No director options found in data] exactly for a
    table with rows whose directors are all missing or blank. *)
Theorem director_info_display_cases :
  forall df,
    (create_director_info_display df = "No data available" <-> df = [])
    /\ (create_director_info_display df = "No director options found in data"
        <-> df <> []
            /\ forall m, In m df ->
                 r_DIRECTOR m = None
                 \/ exists d, r_DIRECTOR m = Some d
                              /\ Text.strip d = EmptyString).
Proof.
  intros df. rewrite <- choices_empty_iff.
  unfold create_director_info_display.
  destruct df as [|m df].
  - split; [tauto|]. split; [discriminate|]. intros [H _]. contradiction.
  - destruct (get_director_choices (m :: df)) as [|d t].
    + split; [split; discriminate|]. split; [|reflexivity].
      intros _. split; [discriminate|reflexivity].
    + split; [split; discriminate|]. split; [discriminate|].
      intros [_ H]. discriminate.
Qed.

End ChoicesExtras.
